(** * flag: command line flag registration and parsing

    A shallow embedding of [flag/__init__.py]: the typed flag objects, the
    two module-level dictionaries and [parse], followed by the properties
    of the specification that concern them.

    Conventions of the embedding.
    - A Python [str] is a [string]; every operation the module applies to
      text ([in], [split], [startswith], [replace], the placeholder regular
      expression) looks for ASCII characters only.
    - A Python [int] is a [Z], a Python [float] a primitive binary64 [float].
    - [_write_exc] writes a message, prints the usage text and calls
      [sys.exit(1)]: an [Exit] outcome carrying the error.  A Python
      exception that the module does not catch is a [Raise] outcome.
    - Flags are mutable objects shared by the two dictionaries: the state
      holds an object store and the dictionaries hold references into it. *)

From Stdlib Require Import ZArith String Ascii List Lia.
From Stdlib Require Import PrimFloat SpecFloat FloatOps.
From stdpp Require Import base list strings.
From Equations Require Import Equations.
Import ListNotations.
Open Scope string_scope.
Open Scope list_scope.

(** ** Text *)

Module Str.

Definition eq_sign : ascii := "="%char.
Definition dash : ascii := "-"%char.
Definition quote : ascii := "'"%char.
Definition newline : ascii := "010"%char.

(** [c in s] for a one-character [c]. *)
Fixpoint contains (c : ascii) (s : string) : bool :=
  match s with
  | EmptyString => false
  | String a s' => if Ascii.eqb a c then true else contains c s'
  end.

(** [s.split(c)]: every occurrence of [c] separates two fields. *)
Fixpoint split (c : ascii) (s : string) : list string :=
  match s with
  | EmptyString => [EmptyString]
  | String a s' =>
      if Ascii.eqb a c then EmptyString :: split c s'
      else match split c s' with
           | h :: t => String a h :: t
           | [] => [String a EmptyString]
           end
  end.

(** [s.startswith(p)]. *)
Definition startswith (p s : string) : bool := String.prefix p s.

(** [s.replace(c, '')]: every occurrence of [c] is dropped. *)
Fixpoint remove (c : ascii) (s : string) : string :=
  match s with
  | EmptyString => EmptyString
  | String a s' => if Ascii.eqb a c then remove c s' else String a (remove c s')
  end.

(** [sep.join(l)]. *)
Fixpoint join (sep : string) (l : list string) : string :=
  match l with
  | [] => EmptyString
  | [x] => x
  | x :: l' => x +:+ sep +:+ join sep l'
  end.

(** Truth value of a string: [bool(s)]. *)
Definition nonempty (s : string) : bool :=
  match s with EmptyString => false | String _ _ => true end.

End Str.

(** ** The placeholder pattern ['(.*?)'] *)

Module Re.

(** After an opening quote: the shortest run of characters other than a
    newline that is followed by a quote.  Returns the run (the group) and
    the text after the closing quote. *)
Fixpoint lazy_group (s : string) : option (string * string) :=
  match s with
  | EmptyString => None
  | String a s' =>
      if Ascii.eqb a Str.quote then Some (EmptyString, s')
      else if Ascii.eqb a Str.newline then None
      else match lazy_group s' with
           | Some (g, rest) => Some (String a g, rest)
           | None => None
           end
  end.

Definition inspect {A} (a : A) : {b : A | a = b} := exist _ a eq_refl.

(** [re.findall(r"'(.*?)'", s)]: the groups of the leftmost,
    non-overlapping matches, scanning from the left. *)
Equations? findall (s : string) : list string by wf (String.length s) lt :=
  findall EmptyString := [];
  findall (String a s') with Ascii.eqb a Str.quote => {
    | false := findall s';
    | true with inspect (lazy_group s') => {
        | exist _ (Some (g, rest)) E := g :: findall rest;
        | exist _ None _ := findall s' } }.
Proof.
  all: simpl; try lia.
  clear findall. revert g rest E.
  induction s' as [|b s' IH]; intros g rest; simpl; [discriminate|].
  destruct (Ascii.eqb b Str.quote); [intros [= _ <-]; lia|].
  destruct (Ascii.eqb b Str.newline); [discriminate|].
  destruct (lazy_group s') as [[g' r']|]; [|discriminate].
  intros [= _ <-]. specialize (IH _ _ eq_refl). lia.
Qed.

End Re.

(** ** Python values and the built-in conversions the module calls *)

Module Py.

(** The values a flag can hold and the operands it is compared with. *)
Inductive pyval :=
| VInt (z : Z)
| VBool (b : bool)
| VFloat (f : float)
| VStr (s : string).

(** The classes [int], [float], [str] and [bool]. *)
Inductive pytype := TInt | TFloat | TStr | TBool.

Definition type_name (t : pytype) : string :=
  match t with TInt => "int" | TFloat => "float" | TStr => "str" | TBool => "bool" end.

(** [type(v)]. *)
Definition type_of (v : pyval) : pytype :=
  match v with VInt _ => TInt | VBool _ => TBool | VFloat _ => TFloat | VStr _ => TStr end.

(** [isinstance(v, t)]: [bool] is a subclass of [int]. *)
Definition isinstance (v : pyval) (t : pytype) : bool :=
  match v, t with
  | VInt _, TInt | VBool _, TInt | VBool _, TBool | VFloat _, TFloat | VStr _, TStr => true
  | _, _ => false
  end.

(** Exceptions that leave the module uncaught. *)
Inductive pyexc := IndexError | ValueError | TypeError | OverflowError.

(** *** Text to number *)

(** The conversions are given for ASCII text: white space is the
    characters 9 to 13 and the blank, a digit is one of 0 to 9. *)
Definition is_space (a : ascii) : bool :=
  let n := nat_of_ascii a in
  ((9 <=? n) && (n <=? 13) || (n =? 32))%nat.

Fixpoint lstrip (s : string) : string :=
  match s with
  | String a s' => if is_space a then lstrip s' else s
  | EmptyString => EmptyString
  end.

Fixpoint rstrip (s : string) : string :=
  match s with
  | EmptyString => EmptyString
  | String a s' =>
      match rstrip s' with
      | EmptyString => if is_space a then EmptyString else String a EmptyString
      | r => String a r
      end
  end.

Definition strip (s : string) : string := rstrip (lstrip s).

Definition digit (a : ascii) : option Z :=
  let n := nat_of_ascii a in
  if ((48 <=? n) && (n <=? 57))%nat then Some (Z.of_nat (n - 48)) else None.

(** The rest of a [digitpart ::= digit (["_"] digit)*] after a digit:
    the value read so far, the number of digits and the unread text. *)
Fixpoint digits_tail (acc : Z) (n : nat) (s : string) : Z * nat * string :=
  match s with
  | EmptyString => (acc, n, s)
  | String a s' =>
      match digit a with
      | Some d => digits_tail (acc * 10 + d) (S n) s'
      | None =>
          if Ascii.eqb a "_"%char then
            match s' with
            | String b s'' =>
                match digit b with
                | Some d => digits_tail (acc * 10 + d) (S n) s''
                | None => (acc, n, s)
                end
            | EmptyString => (acc, n, s)
            end
          else (acc, n, s)
      end
  end.

Definition digitpart (s : string) : option (Z * nat * string) :=
  match s with
  | String a s' =>
      match digit a with
      | Some d => Some (digits_tail d 1 s')
      | None => None
      end
  | EmptyString => None
  end.

(** An optional sign: [true] for minus. *)
Definition sign (s : string) : bool * string :=
  match s with
  | String a s' =>
      if Ascii.eqb a "-"%char then (true, s')
      else if Ascii.eqb a "+"%char then (false, s')
      else (false, s)
  | EmptyString => (false, s)
  end.

(** [int(s)] for text: surrounding white space, an optional sign and a
    decimal [digitpart].  [None] stands for [ValueError].  The bound that
    recent interpreters put on the number of digits is left out. *)
Definition int_of_str (s : string) : option Z :=
  let (neg, s1) := sign (strip s) in
  match digitpart s1 with
  | Some (v, _, EmptyString) => Some (if neg then (- v)%Z else v)
  | _ => None
  end.

Definition lower (a : ascii) : ascii :=
  let n := nat_of_ascii a in
  if ((65 <=? n) && (n <=? 90))%nat then ascii_of_nat (n + 32) else a.

Fixpoint lowercase (s : string) : string :=
  match s with
  | EmptyString => EmptyString
  | String a s' => String (lower a) (lowercase s')
  end.

(** The binary64 number nearest to [n / d] (ties to even), for [0 <= n]
    and [0 < d]; [neg] gives the sign.  The quotient is taken with enough
    bits for the rounding, the last one recording an inexact division. *)
Definition round_ratio (neg : bool) (n d : Z) : float :=
  if (n =? 0)%Z then SF2Prim (S754_zero neg)
  else
    let k := Z.max 0 (56 + Z.log2 d - Z.log2 n) in
    let q := (n * 2 ^ k / d)%Z in
    let r := ((n * 2 ^ k) mod d)%Z in
    let m := (2 * q + (if (r =? 0)%Z then 0 else 1))%Z in
    SF2Prim (binary_normalize prec emax (if neg then (- m)%Z else m) (- k - 1) neg).

(** The digits of [number ::= [digitpart] "." digitpart | digitpart ["."]]:
    all the digits as one integer, how many of them follow the point, and
    the unread text. *)
Definition number (s : string) : option (Z * nat * string) :=
  match digitpart s with
  | Some (i, _, String a s1) =>
      if Ascii.eqb a "."%char then
        match s1 with
        | String b s2 =>
            match digit b with
            | Some d =>
                let '(v, n, rest) := digits_tail (i * 10 + d) 1 s2 in
                Some (v, n, rest)
            | None => Some (i, 0%nat, s1)
            end
        | EmptyString => Some (i, 0%nat, s1)
        end
      else Some (i, 0%nat, String a s1)
  | Some (i, _, EmptyString) => Some (i, 0%nat, EmptyString)
  | None =>
      match s with
      | String a s1 =>
          if Ascii.eqb a "."%char then
            match digitpart s1 with
            | Some (v, n, rest) => Some (v, n, rest)
            | None => None
            end
          else None
      | EmptyString => None
      end
  end.

(** [exponent ::= ("e" | "E") [sign] digitpart], absent when the text ends. *)
Definition exponent (s : string) : option Z :=
  match s with
  | EmptyString => Some 0%Z
  | String a s1 =>
      if Ascii.eqb (lower a) "e"%char then
        let (neg, s2) := sign s1 in
        match digitpart s2 with
        | Some (v, _, EmptyString) => Some (if neg then (- v)%Z else v)
        | _ => None
        end
      else None
  end.

(** [float(s)] for text.  [None] stands for [ValueError]. *)
Definition float_of_str (s : string) : option float :=
  let (neg, s1) := sign (strip s) in
  let w := lowercase s1 in
  if String.eqb w "inf" || String.eqb w "infinity" then
    Some (if neg then neg_infinity else infinity)
  else if String.eqb w "nan" then Some nan
  else
    match number s1 with
    | Some (m, nfrac, rest) =>
        match exponent rest with
        | Some e =>
            let scale := (e - Z.of_nat nfrac)%Z in
            Some (if (0 <=? scale)%Z then round_ratio neg (m * 10 ^ scale) 1
                  else round_ratio neg m (10 ^ (- scale)))
        | None => None
        end
    | None => None
    end.

(** *** [int(v)] and [float(v)], here [to_int] and [to_float] *)

(** [int(f)] truncates towards zero. *)
Definition int_of_float (f : float) : Z + pyexc :=
  match Prim2SF f with
  | S754_nan => inr ValueError
  | S754_infinity _ => inr OverflowError
  | S754_zero _ => inl 0%Z
  | S754_finite s m e =>
      let a := if (0 <=? e)%Z then (Z.pos m * 2 ^ e)%Z else (Z.pos m / 2 ^ (- e))%Z in
      inl (if s then (- a)%Z else a)
  end.

Definition to_int (v : pyval) : Z + pyexc :=
  match v with
  | VInt z => inl z
  | VBool b => inl (Z.b2z b)
  | VFloat f => int_of_float f
  | VStr s => match int_of_str s with Some z => inl z | None => inr ValueError end
  end.

(** [float(z)] rounds to the nearest binary64 number. *)
Definition float_of_int (z : Z) : float + pyexc :=
  match binary_normalize prec emax z 0 false with
  | S754_infinity _ => inr OverflowError
  | x => inl (SF2Prim x)
  end.

Definition to_float (v : pyval) : float + pyexc :=
  match v with
  | VFloat f => inl f
  | VInt z => float_of_int z
  | VBool b => inl (if b then 1%float else 0%float)
  | VStr s => match float_of_str s with Some f => inl f | None => inr ValueError end
  end.

(** *** Comparison operators *)

Inductive op := OpEq | OpNe | OpLt | OpLe | OpGt | OpGe.

Definition holds (o : op) (c : float_comparison) : bool :=
  match o, c with
  | OpEq, FEq | OpLt, FLt | OpLe, FLt | OpLe, FEq | OpGt, FGt | OpGe, FGt | OpGe, FEq => true
  | OpNe, FEq => false
  | OpNe, _ => true
  | _, _ => false
  end.

Definition of_comparison (c : comparison) : float_comparison :=
  match c with Eq => FEq | Lt => FLt | Gt => FGt end.

Definition flip (c : float_comparison) : float_comparison :=
  match c with FLt => FGt | FGt => FLt | c => c end.

Definition int_op (o : op) (x y : Z) : bool := holds o (of_comparison (x ?= y)%Z).

(** On two floats an operator is the IEEE one: any comparison with a NaN
    is false, except [!=]. *)
Definition float_op (o : op) (f g : float) : bool :=
  match o with
  | OpEq => PrimFloat.eqb f g
  | OpNe => negb (PrimFloat.eqb f g)
  | OpLt => PrimFloat.ltb f g
  | OpLe => PrimFloat.leb f g
  | OpGt => PrimFloat.ltb g f
  | OpGe => PrimFloat.leb g f
  end.

(** An integer against a float, by their exact values. *)
Definition compare_int_float (z : Z) (f : float) : float_comparison :=
  match Prim2SF f with
  | S754_nan => FNotComparable
  | S754_infinity s => if s then FGt else FLt
  | S754_zero _ => of_comparison (z ?= 0)%Z
  | S754_finite s m e =>
      let v := if s then Z.neg m else Z.pos m in
      if (0 <=? e)%Z then of_comparison (z ?= v * 2 ^ e)%Z
      else of_comparison (z * 2 ^ (- e) ?= v)%Z
  end.

Definition numeric (v : pyval) : option (Z + float) :=
  match v with
  | VInt z => Some (inl z)
  | VBool b => Some (inl (Z.b2z b))
  | VFloat f => Some (inr f)
  | VStr _ => None
  end.

(** [a <op> b].  Text is ordered character by character; text and a
    number are unequal and have no order ([TypeError]). *)
Definition richcompare (o : op) (a b : pyval) : bool + pyexc :=
  match a, b with
  | VStr s, VStr t => inl (holds o (of_comparison (String.compare s t)))
  | _, _ =>
      match numeric a, numeric b with
      | Some (inl x), Some (inl y) => inl (int_op o x y)
      | Some (inl x), Some (inr g) => inl (holds o (compare_int_float x g))
      | Some (inr f), Some (inl y) => inl (holds o (flip (compare_int_float y f)))
      | Some (inr f), Some (inr g) => inl (float_op o f g)
      | _, _ =>
          match o with
          | OpEq => inl false
          | OpNe => inl true
          | _ => inr TypeError
          end
      end
  end.

(** [a == b], which never raises. *)
Definition eq (a b : pyval) : bool :=
  match richcompare OpEq a b with inl r => r | inr _ => false end.

(** [bool(v)]: a number is true unless it is zero (a NaN is true), text
    unless it is empty. *)
Definition truth (v : pyval) : bool :=
  match v with
  | VInt z => negb (z =? 0)%Z
  | VBool b => b
  | VFloat f => negb (PrimFloat.eqb f 0%float)
  | VStr s => Str.nonempty s
  end.

End Py.

(** ** Insertion-ordered dictionaries with text keys *)

Module Dict.

Section Ops.
Context {V : Type}.

(** [d.get(k)]. *)
Fixpoint get (k : string) (d : list (string * V)) : option V :=
  match d with
  | [] => None
  | (k', v) :: d' => if String.eqb k' k then Some v else get k d'
  end.

(** [k in d]. *)
Definition mem (k : string) (d : list (string * V)) : bool :=
  match get k d with Some _ => true | None => false end.

(** [d[k] = v]: a new key goes last, a known key keeps its place. *)
Fixpoint set (k : string) (v : V) (d : list (string * V)) : list (string * V) :=
  match d with
  | [] => [(k, v)]
  | (k', v') :: d' =>
      if String.eqb k' k then (k', v) :: d' else (k', v') :: set k v d'
  end.

(** [d.pop(k, None)]. *)
Fixpoint pop (k : string) (d : list (string * V)) : list (string * V) :=
  match d with
  | [] => []
  | (k', v') :: d' =>
      if String.eqb k' k then d' else (k', v') :: pop k d'
  end.

Definition keys (d : list (string * V)) : list string := map fst d.
Definition values (d : list (string * V)) : list V := map snd d.
End Ops.

End Dict.

(** ** Flags *)

(** The four concrete classes. *)
Inductive klass := KInt | KFloat | KStr | KBool.

Definition class_name (k : klass) : string :=
  match k with
  | KInt => "IntFlag" | KFloat => "FloatFlag" | KStr => "StrFlag" | KBool => "BoolFlag"
  end.

(** What [parse] hands to a flag: text, or the literal [True]. *)
Inductive raw := RStr (s : string) | RBool (b : bool).

Definition raw_val (r : raw) : Py.pyval :=
  match r with RStr s => Py.VStr s | RBool b => Py.VBool b end.

(** [str(r)]. *)
Definition raw_str (r : raw) : string :=
  match r with RStr s => s | RBool true => "True" | RBool false => "False" end.

(** [bool(r)]. *)
Definition raw_truth (r : raw) : bool :=
  match r with RStr s => Str.nonempty s | RBool b => b end.

(** [t(r)], the call of a class on a raw value. *)
Definition call_type (t : Py.pytype) (r : raw) : Py.pyval + Py.pyexc :=
  match t with
  | Py.TInt => match Py.to_int (raw_val r) with inl z => inl (Py.VInt z) | inr x => inr x end
  | Py.TFloat => match Py.to_float (raw_val r) with inl f => inl (Py.VFloat f) | inr x => inr x end
  | Py.TStr => inl (Py.VStr (raw_str r))
  | Py.TBool => inl (Py.VBool (raw_truth r))
  end.

(** One constructor for each call of [_write_exc]. *)
Inductive error :=
| TypeMismatch (t : Py.pytype) (v : Py.pyval)
| AmbiguousPlaceholder (desc : string) (found : list string)
| DuplicateFlag (name : string)
| ConversionFailure (value : raw) (k : klass) (name : string) (t : Py.pytype)
| InvalidFormat (arg : string)
| UnknownFlag (name : string)
| BooleanFormatRequired (hint : string)
| MissingMandatoryFlag (name : string).

(** The text [_write_exc] is called with. *)
Definition dq : string := String (ascii_of_nat 34) EmptyString.

Definition message (e : error) : string :=
  match e with
  | TypeMismatch t v =>
      "Invalid type for flag of type <class '" +:+ Py.type_name t +:+ "'>: "
      +:+ Py.type_name (Py.type_of v)
  | AmbiguousPlaceholder desc found =>
      "Argument names conflict in " +:+ dq +:+ desc +:+ dq +:+ ", between: "
      +:+ Str.join ", " found
  | DuplicateFlag n => "_Flag already registered: " +:+ n +:+ "."
  | ConversionFailure v k n t =>
      "Cannot convert value " +:+ dq +:+ raw_str v +:+ dq +:+ " for " +:+ class_name k
      +:+ " " +:+ dq +:+ n +:+ dq +:+ ".                 (expected type: "
      +:+ Py.type_name t +:+ ")"
  | InvalidFormat arg => "Invalid flag format: " +:+ arg +:+ "."
  | UnknownFlag n => "Unknown flag: " +:+ n +:+ "."
  | BooleanFormatRequired hint =>
      "Boolean flags have to be specified as " +:+ dq +:+ "--flag_name" +:+ dq +:+ " not "
      +:+ dq +:+ hint +:+ dq +:+ "."
  | MissingMandatoryFlag n => "Mandatory flag " +:+ dq +:+ n +:+ dq +:+ " not provided."
  end.

(** How a call ends: normally, in [_write_exc] (the process exits with
    status 1), or with an exception nobody catches. *)
Inductive outcome (A : Type) :=
| Ok (a : A)
| Exit (e : error)
| Raise (x : Py.pyexc).
Arguments Ok {A} a.
Arguments Exit {A} e.
Arguments Raise {A} x.

Definition bind {A B} (m : outcome A) (k : A -> outcome B) : outcome B :=
  match m with
  | Ok a => k a
  | Exit e => Exit e
  | Raise x => Raise x
  end.

Notation "'do' x <- m ; k" := (bind m (fun x => k))
  (at level 10, x name, m at level 100, k at level 200).

Module Flag.

Record t := mk {
  cls : klass;
  name : string;
  default : Py.pyval;
  desc : string;
  mandatory : bool;
  type : Py.pytype;
  arg_name : string;
  _value : Py.pyval
}.

(** The [value] property. *)
Definition value (f : t) : Py.pyval := _value f.

(** The [value] setter. *)
Definition set_value (f : t) (v : raw) : outcome t :=
  match call_type (type f) v with
  | inl conv =>
      Ok (mk (cls f) (name f) (default f) (desc f) (mandatory f) (type f) (arg_name f) conv)
  | inr Py.ValueError => Exit (ConversionFailure v (cls f) (name f) (type f))
  | inr x => Raise x
  end.

(** The [is_default] property. *)
Definition is_default (f : t) : bool := Py.eq (value f) (default f).


(** [__eq__], [__ne__], [__lt__], [__le__], [__gt__] and [__ge__] of
    [IntFlag]: [self.value <op> int(o)]. *)
Definition IntFlag_compare (o : Py.op) (f : t) (v : Py.pyval) : bool + Py.pyexc :=
  match Py.to_int v with
  | inl z => Py.richcompare o (value f) (Py.VInt z)
  | inr x => inr x
  end.

(** The same methods of [FloatFlag]: [self.value <op> float(o)]. *)
Definition FloatFlag_compare (o : Py.op) (f : t) (v : Py.pyval) : bool + Py.pyexc :=
  match Py.to_float v with
  | inl x => Py.richcompare o (value f) (Py.VFloat x)
  | inr x => inr x
  end.

(** [__eq__] and [__ne__] of [BoolFlag]: [self.value <op> bool(o)]. *)
Definition BoolFlag_compare (o : Py.op) (f : t) (v : Py.pyval) : bool + Py.pyexc :=
  Py.richcompare o (value f) (Py.VBool (Py.truth v)).

(** [__bool__]: [bool(self.value)]. *)
Definition __bool__ (f : t) : bool := Py.truth (value f).

(** The flag with its value back at the default: all that [parse] leaves
    of a flag. *)
Definition reset (f : t) : t :=
  mk (cls f) (name f) (default f) (desc f) (mandatory f) (type f) (arg_name f) (default f).

End Flag.

(** ** The module state *)

(** The flag objects, in the order of their creation, and the two
    dictionaries, whose values are references into [objs]. *)
Record state := mkState {
  objs : list Flag.t;
  _flags_registered : list (string * nat);
  _unsatisfied_mandatory : list (string * nat)
}.

Definition initial : state := mkState [] [] [].

Definition _check_against (value : Py.pyval) (_type : Py.pytype) : outcome unit :=
  if Py.isinstance value _type then Ok tt else Exit (TypeMismatch _type value).

Definition _get_arg_name (desc : string) : outcome string :=
  match Re.findall desc with
  | [] => Ok EmptyString
  | [m] => Ok (Str.remove Str.quote m)
  | found => Exit (AmbiguousPlaceholder desc found)
  end.

Definition _register_flag (st : state) (flag : Flag.t) : outcome state :=
  if Dict.mem (Flag.name flag) (_flags_registered st) then
    Exit (DuplicateFlag (Flag.name flag))
  else
    let ref := length (objs st) in
    Ok (mkState (objs st ++ [flag])
          (Dict.set (Flag.name flag) ref (_flags_registered st))
          (if Flag.mandatory flag
           then Dict.set (Flag.name flag) ref (_unsatisfied_mandatory st)
           else _unsatisfied_mandatory st)).

(** [_Flag.__init__]. *)
Definition _Flag_init (st : state) (k : klass) (name : string) (default : Py.pyval)
    (flag_type : Py.pytype) (desc : string) (mandatory : bool) : outcome state :=
  do _ok <- _check_against default flag_type;
  do arg_name <- _get_arg_name desc;
  let desc' := if Str.nonempty arg_name then Str.remove Str.quote desc else desc in
  _register_flag st (Flag.mk k name default desc' mandatory flag_type arg_name default).

Definition IntFlag (st : state) (name : string) (default : Py.pyval) (desc : string)
    (mandatory : bool) : outcome state :=
  _Flag_init st KInt name default Py.TInt desc mandatory.

Definition FloatFlag (st : state) (name : string) (default : Py.pyval) (desc : string)
    (mandatory : bool) : outcome state :=
  _Flag_init st KFloat name default Py.TFloat desc mandatory.

Definition StrFlag (st : state) (name : string) (default : Py.pyval) (desc : string)
    (mandatory : bool) : outcome state :=
  _Flag_init st KStr name default Py.TStr desc mandatory.

Definition BoolFlag (st : state) (name : string) (desc : string) : outcome state :=
  _Flag_init st KBool name (Py.VBool false) Py.TBool desc false.

(** The flag a name is registered for. *)
Definition lookup (st : state) (name : string) : option Flag.t :=
  match Dict.get name (_flags_registered st) with
  | Some ref => objs st !! ref
  | None => None
  end.

(** ** [parse] *)

Definition is_bool_flag (f : Flag.t) : bool :=
  match Flag.cls f with KBool => true | _ => false end.

(** The second half of one turn of the loop: the name is looked up, the
    form is checked for a boolean flag, the value is assigned.  Returns the
    new state and the name to append to [flags_provided].

    A reference held by a dictionary always points into the store (see
    [wf]); a dangling one, which no run can produce, is given the outcome
    of an unknown name. *)
Definition assign (st : state) (arg real_name : string) (value : raw)
    : outcome (state * string) :=
  let name := Str.remove Str.dash real_name in
  match lookup st name, Dict.get name (_flags_registered st) with
  | Some matched_flag, Some ref =>
      if is_bool_flag matched_flag && negb (Str.startswith "--" real_name) then
        let hint :=
          if Str.contains Str.eq_sign arg then "-flag_name=value" else "-flag_name value" in
        Exit (BooleanFormatRequired hint)
      else
        do flag' <- Flag.set_value matched_flag value;
        Ok (mkState (<[ref := flag']> (objs st)) (_flags_registered st)
              (_unsatisfied_mandatory st), name)
  | _, _ => Exit (UnknownFlag name)
  end.

(** The [while] loop over [argv], with [flags_provided]. *)
Fixpoint parse_loop (st : state) (flags_provided : list string) (argv : list string)
    : outcome (state * list string) :=
  match argv with
  | [] => Ok (st, flags_provided)
  | arg :: argv1 =>
      if Str.contains Str.eq_sign arg then
        match Str.split Str.eq_sign arg with
        | [real_name; value] =>
            match assign st arg real_name (RStr value) with
            | Ok (st', name) => parse_loop st' (flags_provided ++ [name]) argv1
            | Exit e => Exit e
            | Raise x => Raise x
            end
        | _ => Raise Py.ValueError
        end
      else if Str.startswith "--" arg then
        match assign st arg arg (RBool true) with
        | Ok (st', name) => parse_loop st' (flags_provided ++ [name]) argv1
        | Exit e => Exit e
        | Raise x => Raise x
        end
      else if Str.startswith "-" arg then
        match argv1 with
        | [] => Raise Py.IndexError
        | value :: argv2 =>
            match assign st arg arg (RStr value) with
            | Ok (st', name) => parse_loop st' (flags_provided ++ [name]) argv2
            | Exit e => Exit e
            | Raise x => Raise x
            end
        end
      else Exit (InvalidFormat arg)
  end.

(** The check of the mandatory flags that ends [parse]. *)
Definition check_mandatory (st : state) (flags_provided : list string) : outcome state :=
  let unsatisfied :=
    fold_left (fun d flag_name => Dict.pop flag_name d) flags_provided
      (_unsatisfied_mandatory st) in
  match unsatisfied with
  | [] => Ok (mkState (objs st) (_flags_registered st) unsatisfied)
  | (key, ref) :: _ =>
      match objs st !! ref with
      | Some flag => Exit (MissingMandatoryFlag (Flag.name flag))
      | None => Exit (MissingMandatoryFlag key)
      end
  end.

(** [parse()], on the state of the module and [sys.argv]. *)
Definition parse (st : state) (sys_argv : list string) : outcome state :=
  match sys_argv with
  | [] => Raise Py.IndexError
  | _ :: argv =>
      do r <- parse_loop st [] argv;
      check_mandatory (fst r) (snd r)
  end.

(** ** Quantities the properties are stated with *)

(** The names the tokens of an argument list refer to, in the order in which
    the loop meets them: a token [-name] takes the next token as its value. *)
Fixpoint token_names (argv : list string) : list string :=
  match argv with
  | [] => []
  | arg :: argv1 =>
      if Str.contains Str.eq_sign arg then
        Str.remove Str.dash (hd EmptyString (Str.split Str.eq_sign arg)) :: token_names argv1
      else if Str.startswith "--" arg then Str.remove Str.dash arg :: token_names argv1
      else if Str.startswith "-" arg then
        match argv1 with
        | [] => []
        | _ :: argv2 => Str.remove Str.dash arg :: token_names argv2
        end
      else []
  end.

(** The first half of one turn of the loop on its own: the form of the
    token gives [real_name], [value] and the tokens left for the next turns. *)
Definition read_token (arg : string) (argv1 : list string)
    : outcome (string * raw * list string) :=
  if Str.contains Str.eq_sign arg then
    match Str.split Str.eq_sign arg with
    | [real_name; value] => Ok (real_name, RStr value, argv1)
    | _ => Raise Py.ValueError
    end
  else if Str.startswith "--" arg then Ok (arg, RBool true, argv1)
  else if Str.startswith "-" arg then
    match argv1 with
    | [] => Raise Py.IndexError
    | value :: argv2 => Ok (arg, RStr value, argv2)
    end
  else Exit (InvalidFormat arg).

(** The comparisons of the integers. *)
Definition int_rel (o : Py.op) (x y : Z) : bool :=
  match o with
  | Py.OpEq => (x =? y)%Z
  | Py.OpNe => negb (x =? y)%Z
  | Py.OpLt => (x <? y)%Z
  | Py.OpLe => (x <=? y)%Z
  | Py.OpGt => (y <? x)%Z
  | Py.OpGe => (y <=? x)%Z
  end.

(** The class each flag class passes to [_Flag.__init__]. *)
Definition class_type (k : klass) : Py.pytype :=
  match k with KInt => Py.TInt | KFloat => Py.TFloat | KStr => Py.TStr | KBool => Py.TBool end.

(** A flag as the constructors build it and the setter keeps it. *)
Definition coherent (f : Flag.t) : Prop :=
  Flag.type f = class_type (Flag.cls f)
  /\ Py.isinstance (Flag.value f) (Flag.type f) = true
  /\ Py.isinstance (Flag.default f) (Flag.type f) = true.

(** The shape of the state: keys are unique, a registered name refers to a
    live object of that name, and a pending mandatory flag is registered. *)
Record wf (st : state) : Prop := mkWf {
  wf_reg_keys : NoDup (Dict.keys (_flags_registered st));
  wf_unsat_keys : NoDup (Dict.keys (_unsatisfied_mandatory st));
  wf_refs : forall n ref, Dict.get n (_flags_registered st) = Some ref ->
            exists f, objs st !! ref = Some f /\ Flag.name f = n;
  wf_unsat : forall n ref, Dict.get n (_unsatisfied_mandatory st) = Some ref ->
             Dict.get n (_flags_registered st) = Some ref;
  wf_coherent : Forall coherent (objs st)
}.

(** The states a program reaches by creating flags. *)
Inductive constructed : state -> Prop :=
| constructed_initial : constructed initial
| constructed_IntFlag st name default desc mandatory st' :
    constructed st -> IntFlag st name default desc mandatory = Ok st' -> constructed st'
| constructed_FloatFlag st name default desc mandatory st' :
    constructed st -> FloatFlag st name default desc mandatory = Ok st' -> constructed st'
| constructed_StrFlag st name default desc mandatory st' :
    constructed st -> StrFlag st name default desc mandatory = Ok st' -> constructed st'
| constructed_BoolFlag st name desc st' :
    constructed st -> BoolFlag st name desc = Ok st' -> constructed st'.

(** The mandatory flags, by name and in the order of their registration. *)
Definition mandatory_names (st : state) : list string :=
  map Flag.name (filter (fun f => Flag.mandatory f = true) (objs st)).

(** The first registered mandatory flag that no token of [argv] names. *)
Definition first_unsatisfied (st : state) (argv : list string) : option string :=
  head (filter (fun n => n ∉ token_names argv) (mandatory_names st)).

(** [True] as each class converts it. *)
Definition true_as (t : Py.pytype) : Py.pyval :=
  match t with
  | Py.TInt => Py.VInt 1
  | Py.TFloat => Py.VFloat 1
  | Py.TStr => Py.VStr "True"
  | Py.TBool => Py.VBool true
  end.

(** The state after [objs[ref].value] received [v]. *)
Definition with_value (st : state) (ref : nat) (f : Flag.t) (v : Py.pyval) : state :=
  mkState
    (<[ref := Flag.mk (Flag.cls f) (Flag.name f) (Flag.default f) (Flag.desc f)
                (Flag.mandatory f) (Flag.type f) (Flag.arg_name f) v]> (objs st))
    (_flags_registered st) (_unsatisfied_mandatory st).

(** The tokens of an argument list as the loop reads them: the name each
    one refers to and the value it carries. *)
Fixpoint token_values (argv : list string) : list (string * raw) :=
  match argv with
  | [] => []
  | arg :: argv1 =>
      if Str.contains Str.eq_sign arg then
        match Str.split Str.eq_sign arg with
        | [real_name; value] =>
            (Str.remove Str.dash real_name, RStr value) :: token_values argv1
        | _ => []
        end
      else if Str.startswith "--" arg then
        (Str.remove Str.dash arg, RBool true) :: token_values argv1
      else if Str.startswith "-" arg then
        match argv1 with
        | [] => []
        | value :: argv2 => (Str.remove Str.dash arg, RStr value) :: token_values argv2
        end
      else []
  end.

(** One assignment [matched_flag.value = value] as a write to the store:
    the object written to and the value it receives. *)
Definition store (st : state) (w : nat * Py.pyval) : state :=
  match objs st !! fst w with
  | Some flag => with_value st (fst w) flag (snd w)
  | None => st
  end.

(** The write a token stands for: the object registered for its name
    receives the value of the token, converted by the class of the object. *)
Definition assignment_of (st : state) (t : string * raw) : option (nat * Py.pyval) :=
  match Dict.get (fst t) (_flags_registered st) with
  | Some ref =>
      match objs st !! ref with
      | Some flag =>
          match call_type (Flag.type flag) (snd t) with
          | inl conv => Some (ref, conv)
          | inr _ => None
          end
      | None => None
      end
  | None => None
  end.

(** How often the writes [ws] assign to the object [ref]. *)
Definition assignments (ref : nat) (ws : list (nat * Py.pyval)) : nat :=
  length (filter (fun w => fst w = ref) ws).

(** ** The usage text *)



(** ** The states of a program *)

(** The call of the class [k]; [BoolFlag] takes neither a default nor
    [mandatory]. *)
Definition new_flag (k : klass) (st : state) (name : string) (default : Py.pyval)
    (desc : string) (mandatory : bool) : outcome state :=
  match k with
  | KInt => IntFlag st name default desc mandatory
  | KFloat => FloatFlag st name default desc mandatory
  | KStr => StrFlag st name default desc mandatory
  | KBool => BoolFlag st name desc
  end.

(** The states a program reaches by creating flags and calling [parse],
    in any order. *)
Inductive reachable : state -> Prop :=
| reachable_initial : reachable initial
| reachable_flag k st name default desc mandatory st' :
    reachable st -> new_flag k st name default desc mandatory = Ok st' -> reachable st'
| reachable_parse st sys_argv st' :
    reachable st -> parse st sys_argv = Ok st' -> reachable st'.

(** What the constructors guarantee of the fields that [parse] leaves
    alone: a boolean flag is not mandatory and has the default [False]; the
    placeholder holds no quote, and the description holds none when there
    is a placeholder. *)
Definition built (f : Flag.t) : Prop :=
  (Flag.cls f = KBool -> Flag.mandatory f = false /\ Flag.default f = Py.VBool false)
  /\ Str.contains Str.quote (Flag.arg_name f) = false
  /\ (Flag.arg_name f <> EmptyString -> Str.contains Str.quote (Flag.desc f) = false).

(** How often the character [c] occurs in [s]. *)
Fixpoint count_char (c : ascii) (s : string) : nat :=
  match s with
  | EmptyString => 0
  | String a s' => (if Ascii.eqb a c then 1 else 0) + count_char c s'
  end.

(** ** A program to run the model on *)

(** The state a constructor leaves. *)
Definition started (o : outcome state) : state :=
  match o with Ok st => st | _ => initial end.

(** [x = IntFlag('x', 0, "an 'N' value")], then
    [verbose = BoolFlag('verbose', 'be verbose')], then
    [target = StrFlag('target', '', 'where to go', mandatory=True)]. *)
Definition demo_x : state :=
  started (IntFlag initial "x" (Py.VInt 0) "an 'N' value" false).
Definition demo_verbose : state :=
  started (BoolFlag demo_x "verbose" "be verbose").
Definition demo : state :=
  started (StrFlag demo_verbose "target" (Py.VStr EmptyString) "where to go" true).

(** The flag of the unit tests: [IntFlag('test_int_flag', 2137, '')]. *)
Definition test_state : state :=
  started (IntFlag initial "test_int_flag" (Py.VInt 2137) EmptyString false).
Definition test_int_flag : Flag.t :=
  Flag.mk KInt "test_int_flag" (Py.VInt 2137) EmptyString false Py.TInt EmptyString
    (Py.VInt 2137).

(** * Properties *)

(** ** The model on examples *)

Example split_two : Str.split Str.eq_sign "-flag=a=b" = ["-flag"; "a"; "b"].
Proof. reflexivity. Qed.

Example findall_port : Re.findall "port to 'PORT' listen on" = ["PORT"].
Proof. reflexivity. Qed.

Example findall_two : Re.findall "set 'A' or 'B'" = ["A"; "B"].
Proof. reflexivity. Qed.

Example findall_stray : Re.findall "it's a 'X'" = ["s a "].
Proof. reflexivity. Qed.

Example int_of_str_ex :
  map Py.int_of_str ["5"; " -12 "; "1_000"; "+7"; EmptyString; "1__0"; "0x10"; "1.5"; "- 1"; "_1"; "1_"]
  = [Some 5; Some (-12); Some 1000; Some 7; None; None; None; None; None; None; None]%Z.
Proof. reflexivity. Qed.

Example float_of_str_ex :
  map Py.float_of_str ["0.1"; "1.5"; "-2e3"; ".5"; "5."; "1_0.2_5"; "1e400"; "4.9e-324"; "2e-324"]
  = map Some [0x1.999999999999ap-4; 1.5; -2000; 0.5; 5; 10.25; infinity; 0x1p-1074; 0]%float.
Proof. vm_compute. reflexivity. Qed.

Example float_of_str_bad :
  map Py.float_of_str ["."; "e5"; "1e"; "1_.5"; "abc"; EmptyString; "1 2"; "0x1p3"]
  = [None; None; None; None; None; None; None; None].
Proof. vm_compute. reflexivity. Qed.

Example int_truncates :
  map Py.to_int [Py.VFloat 2.75; Py.VFloat (-2.75); Py.VFloat 0x1.7e43c8800759cp+996; Py.VBool true; Py.VFloat nan]
  = [inl 2; inl (-2);
     inl 1000000000000000052504760255204420248704468581108159154915854115511802457988908195786371375080447864043704443832883878176942523235360430575644792184786706982848387200926575803737830233794788090059368953234970799945081119038967640880074652742780142494579258788820056842838115669472196386865459400540160;
     inl 1; inr Py.ValueError]%Z.
Proof. vm_compute. reflexivity. Qed.

Example float_rounds :
  map Py.to_float [Py.VInt 9007199254740993; Py.VInt (2 ^ 1024); Py.VBool true; Py.VStr "x"]
  = [inl 9007199254740992%float; inr Py.OverflowError; inl 1%float; inr Py.ValueError].
Proof. vm_compute. reflexivity. Qed.

Example mixed_compare :
  map (fun '(o, a, b) => Py.richcompare o a b)
      [(Py.OpEq, Py.VInt 1, Py.VFloat 1); (Py.OpLt, Py.VInt 9007199254740993, Py.VFloat 9007199254740992);
       (Py.OpGt, Py.VInt 9007199254740993, Py.VFloat 9007199254740992);
       (Py.OpEq, Py.VFloat nan, Py.VFloat nan); (Py.OpNe, Py.VFloat nan, Py.VFloat nan);
       (Py.OpEq, Py.VBool true, Py.VInt 1); (Py.OpLt, Py.VStr "a", Py.VInt 1);
       (Py.OpEq, Py.VStr "a", Py.VInt 1); (Py.OpLt, Py.VStr "a", Py.VStr "b");
       (Py.OpEq, Py.VFloat 0, Py.VFloat (-0))]
  = [inl true; inl false; inl true; inl false; inl true; inl true; inr Py.TypeError;
     inl false; inl true; inl true].
Proof. vm_compute. reflexivity. Qed.


(** ** Dictionaries and the object store *)

Section DictFacts.
Context {V : Type}.
Implicit Types (d : list (string * V)) (k : string) (v : V).

Lemma get_set_eq k v d : Dict.get k (Dict.set k v d) = Some v.
Proof.
  induction d as [|[k' v'] d IH]; simpl.
  - now rewrite String.eqb_refl.
  - destruct (String.eqb k' k) eqn:E; simpl; rewrite E; auto.
Qed.

Lemma get_set_ne k k' v d : k <> k' -> Dict.get k' (Dict.set k v d) = Dict.get k' d.
Proof.
  intros Hne. induction d as [|[k0 v0] d IH]; simpl.
  - destruct (String.eqb k k') eqn:E; [apply String.eqb_eq in E; contradiction | reflexivity].
  - destruct (String.eqb k0 k) eqn:E; simpl.
    + apply String.eqb_eq in E; subst k0.
      destruct (String.eqb k k') eqn:E'; [apply String.eqb_eq in E'; contradiction | reflexivity].
    + destruct (String.eqb k0 k'); auto.
Qed.

Lemma get_Some_elem k v d : Dict.get k d = Some v -> (k, v) ∈ d.
Proof.
  induction d as [|[k0 v0] d IH]; simpl; [discriminate|].
  destruct (String.eqb k0 k) eqn:E.
  - apply String.eqb_eq in E; subst. intros [= ->]. left.
  - intros H. right. auto.
Qed.

Lemma get_None_keys k d : Dict.get k d = None <-> k ∉ Dict.keys d.
Proof.
  induction d as [|[k0 v0] d IH]; simpl.
  - split; [intros _ H; inversion H | reflexivity].
  - destruct (String.eqb k0 k) eqn:E.
    + apply String.eqb_eq in E; subst. split; [discriminate|]. intros H. exfalso. apply H. left.
    + apply String.eqb_neq in E. rewrite IH. split.
      * intros H H'. inversion H'; subst; [congruence | contradiction].
      * intros H H'. apply H. now right.
Qed.

Lemma mem_false k d : Dict.mem k d = false <-> Dict.get k d = None.
Proof. unfold Dict.mem. destruct (Dict.get k d); split; congruence. Qed.

Lemma keys_set_new k v d : Dict.get k d = None -> Dict.keys (Dict.set k v d) = (Dict.keys d ++ [k])%list.
Proof.
  induction d as [|[k0 v0] d IH]; simpl; [reflexivity|].
  destruct (String.eqb k0 k); [discriminate|]. intros H. simpl. now rewrite IH.
Qed.

Lemma filter_keep (P : string -> Prop) `{forall x, Decision (P x)} (l : list string) :
  (forall x, x ∈ l -> P x) -> filter P l = l.
Proof.
  induction l as [|a l IH]; intros Hall; [reflexivity|].
  rewrite filter_cons_True by (apply Hall; left).
  f_equal. apply IH. intros x Hx. apply Hall. now right.
Qed.

Lemma keys_pop k d :
  NoDup (Dict.keys d) -> Dict.keys (Dict.pop k d) = filter (fun x => x <> k) (Dict.keys d).
Proof.
  induction d as [|[k0 v0] d IH]; simpl; [reflexivity|].
  intros Hnd. apply NoDup_cons in Hnd as [Hn Hnd].
  destruct (String.eqb k0 k) eqn:E.
  - apply String.eqb_eq in E; subst k0.
    rewrite filter_cons_False by (intros H; now apply H).
    symmetry. apply filter_keep. intros x Hx ->. contradiction.
  - apply String.eqb_neq in E. rewrite filter_cons_True by assumption.
    simpl. now rewrite IH.
Qed.

Lemma pop_sublist k d x : x ∈ Dict.pop k d -> x ∈ d.
Proof.
  induction d as [|[k0 v0] d IH]; simpl; [auto|].
  destruct (String.eqb k0 k).
  - intros H. now right.
  - intros H. inversion H; subst; [left | right; auto].
Qed.

Lemma elem_get k v d : NoDup (Dict.keys d) -> (k, v) ∈ d -> Dict.get k d = Some v.
Proof.
  induction d as [|[k0 v0] d IH]; simpl; intros Hnd H; [inversion H|].
  apply NoDup_cons in Hnd as [Hn Hnd].
  destruct (String.eqb k0 k) eqn:E.
  - apply String.eqb_eq in E; subst k0.
    inversion H; subst; [reflexivity|].
    exfalso. apply Hn. unfold Dict.keys. apply list_elem_of_fmap. now exists (k, v).
  - apply String.eqb_neq in E. inversion H; subst; [congruence | auto].
Qed.

End DictFacts.

(** ** Text and the placeholder pattern *)

Section TextFacts.

Lemma remove_absent c s : Str.contains c s = false -> Str.remove c s = s.
Proof.
  induction s as [|a s IH]; simpl; [reflexivity|].
  destruct (Ascii.eqb a c); [discriminate|]. intros H. now rewrite IH.
Qed.

Lemma contains_remove c s : Str.contains c (Str.remove c s) = false.
Proof.
  induction s as [|a s IH]; simpl; [reflexivity|].
  destruct (Ascii.eqb a c) eqn:E; [assumption|]. simpl. now rewrite E.
Qed.

Lemma compare_refl s : String.compare s s = Eq.
Proof.
  induction s as [|a s IH]; simpl; [reflexivity|].
  unfold Ascii.compare. now rewrite N.compare_refl.
Qed.

(** A group of the pattern holds no quote. *)
Lemma lazy_group_clean s g rest :
  Re.lazy_group s = Some (g, rest) -> Str.contains Str.quote g = false.
Proof.
  revert g rest. induction s as [|a s IH]; intros g rest; simpl; [discriminate|].
  destruct (Ascii.eqb a Str.quote) eqn:Eq.
  - now intros [= <- _].
  - destruct (Ascii.eqb a Str.newline); [discriminate|].
    destruct (Re.lazy_group s) as [[g' r']|]; [|discriminate].
    intros [= <- _]. simpl. rewrite Eq. eauto.
Qed.

Lemma findall_clean s : Forall (fun m => Str.contains Str.quote m = false) (Re.findall s).
Proof.
  funelim (Re.findall s); simp findall; constructor;
    [eapply lazy_group_clean; eassumption | assumption].
Qed.

End TextFacts.

(** ** Construction of a flag *)

Section Construction.

Lemma register_lookup st flag st' :
  _register_flag st flag = Ok st' -> lookup st' (Flag.name flag) = Some flag.
Proof.
  unfold _register_flag. destruct (Dict.mem _ _); [discriminate|].
  intros [= <-]. unfold lookup; simpl. rewrite get_set_eq.
  now apply list_lookup_middle.
Qed.

Lemma register_fresh st flag :
  Dict.mem (Flag.name flag) (_flags_registered st) = false ->
  exists st', _register_flag st flag = Ok st'.
Proof. intros H. unfold _register_flag. rewrite H. eauto. Qed.

(** What a successful [_Flag.__init__] has done. *)
Lemma Flag_init_inv st k name d t desc mandatory st' :
  _Flag_init st k name d t desc mandatory = Ok st' ->
  exists arg_name,
    Py.isinstance d t = true
    /\ _get_arg_name desc = Ok arg_name
    /\ lookup st' name
       = Some (Flag.mk k name d
                 (if Str.nonempty arg_name then Str.remove Str.quote desc else desc)
                 mandatory t arg_name d).
Proof.
  unfold _Flag_init, _check_against.
  destruct (Py.isinstance d t); [|discriminate]. simpl.
  destruct (_get_arg_name desc) as [arg_name| |]; [|discriminate..]. simpl.
  intros H. exists arg_name. repeat split.
  now apply register_lookup in H.
Qed.

(** A value other than a NaN is equal to itself. *)
Lemma eq_refl_not_nan d :
  (forall x, d = Py.VFloat x -> PrimFloat.is_nan x = false) -> Py.eq d d = true.
Proof.
  intros Hnan. destruct d as [z|b|x|s]; unfold Py.eq; simpl.
  - unfold Py.int_op. now rewrite Z.compare_refl.
  - unfold Py.int_op. now rewrite Z.compare_refl.
  - specialize (Hnan x eq_refl). unfold PrimFloat.is_nan in Hnan.
    now apply Bool.negb_false_iff in Hnan.
  - now rewrite compare_refl.
Qed.

Lemma get_arg_name_cases desc :
  match Re.findall desc with
  | [] => _get_arg_name desc = Ok EmptyString
  | [m] => _get_arg_name desc = Ok m
  | found => _get_arg_name desc = Exit (AmbiguousPlaceholder desc found)
  end.
Proof.
  unfold _get_arg_name. pose proof (findall_clean desc) as Hc.
  destruct (Re.findall desc) as [|m [|m' ms]]; try reflexivity.
  apply Forall_cons in Hc as [Hm _]. now rewrite remove_absent.
Qed.

End Construction.

(** C6 (as amended): for a default of the right type and a name not yet
    registered, a description without a quoted part gives an empty
    placeholder and is stored unchanged; a description with exactly one
    quoted part gives that part as the placeholder, and is stored with every
    quote removed when the part is not empty; a description with two or more
    quoted parts ends the construction with [AmbiguousPlaceholder]. *)
Theorem placeholder_extraction st k name d t desc mandatory :
  Py.isinstance d t = true ->
  Dict.mem name (_flags_registered st) = false ->
  (Re.findall desc = [] ->
     exists st' f, _Flag_init st k name d t desc mandatory = Ok st'
       /\ lookup st' name = Some f
       /\ Flag.arg_name f = EmptyString /\ Flag.desc f = desc)
  /\ (forall m, Re.findall desc = [m] ->
     exists st' f, _Flag_init st k name d t desc mandatory = Ok st'
       /\ lookup st' name = Some f
       /\ Flag.arg_name f = m
       /\ (m <> EmptyString -> Flag.desc f = Str.remove Str.quote desc))
  /\ (forall m1 m2 ms, Re.findall desc = m1 :: m2 :: ms ->
     _Flag_init st k name d t desc mandatory
     = Exit (AmbiguousPlaceholder desc (m1 :: m2 :: ms))).
Proof.
  intros Hd Hfresh. pose proof (get_arg_name_cases desc) as Hcases.
  unfold _Flag_init, _check_against. rewrite Hd. simpl.
  repeat split.
  - intros E. rewrite E in Hcases. rewrite Hcases. simpl.
    destruct (register_fresh st (Flag.mk k name d desc mandatory t EmptyString d) Hfresh)
      as [st' Hst'].
    exists st', (Flag.mk k name d desc mandatory t EmptyString d).
    split; [assumption|]. split; [|split; reflexivity].
    now apply register_lookup in Hst'.
  - intros m E. rewrite E in Hcases. rewrite Hcases. simpl.
    set (f := Flag.mk k name d (if Str.nonempty m then Str.remove Str.quote desc else desc)
                mandatory t m d).
    destruct (register_fresh st f Hfresh) as [st' Hst'].
    exists st', f. split; [assumption|]. split; [now apply register_lookup in Hst'|].
    split; [reflexivity|]. intros Hm. subst f. simpl.
    destruct m; [contradiction | reflexivity].
  - intros m1 m2 ms E. rewrite E in Hcases. now rewrite Hcases.
Qed.

Lemma placeholder_extraction_witness :
  exists st' f,
    _Flag_init initial KInt "port" (Py.VInt 80) Py.TInt "port to 'PORT' listen on" false = Ok st'
    /\ lookup st' "port" = Some f
    /\ Flag.arg_name f = "PORT"
    /\ Flag.desc f = "port to PORT listen on".
Proof.
  destruct (placeholder_extraction initial KInt "port" (Py.VInt 80) Py.TInt
              "port to 'PORT' listen on" false eq_refl eq_refl) as (_ & Hone & _).
  destruct (Hone "PORT" eq_refl) as (st' & f & Hinit & Hl & Ha & Hd).
  exists st', f. repeat split; try assumption. apply Hd. discriminate.
Defined.

(** C6 fails as stated: the description [a '' b] holds exactly one quoted
    part, the empty one, and is stored with its quotes. *)
Lemma placeholder_empty_keeps_quotes :
  Re.findall "a '' b" = [EmptyString]
  /\ exists st' f,
       StrFlag initial "f" (Py.VStr EmptyString) "a '' b" false = Ok st'
       /\ lookup st' "f" = Some f
       /\ Flag.arg_name f = EmptyString
       /\ Flag.desc f = "a '' b"
       /\ Flag.desc f <> Str.remove Str.quote "a '' b".
Proof.
  split; [reflexivity|].
  eexists _, _. split; [reflexivity|]. split; [reflexivity|].
  split; [reflexivity|]. split; [reflexivity|]. discriminate.
Qed.

(** C7 (as amended): a flag built with a default that is not a NaN holds
    that default as its value and [is_default] is true, until [parse] runs. *)
Theorem default_kept st k name d t desc mandatory st' :
  _Flag_init st k name d t desc mandatory = Ok st' ->
  (forall x, d = Py.VFloat x -> PrimFloat.is_nan x = false) ->
  Py.isinstance d t = true
  /\ exists f, lookup st' name = Some f /\ Flag.value f = d /\ Flag.is_default f = true.
Proof.
  intros Hinit Hnan. apply Flag_init_inv in Hinit as (arg_name & Hd & _ & Hl).
  split; [assumption|]. eexists. split; [exact Hl|]. split; [reflexivity|].
  unfold Flag.is_default, Flag.value. simpl. now apply eq_refl_not_nan.
Qed.

Lemma default_kept_witness :
  exists st',
    IntFlag initial "test_int_flag" (Py.VInt 2137) EmptyString false = Ok st'
    /\ Py.isinstance (Py.VInt 2137) Py.TInt = true
    /\ exists f, lookup st' "test_int_flag" = Some f
         /\ Flag.value f = Py.VInt 2137 /\ Flag.is_default f = true.
Proof.
  eexists. split; [reflexivity|].
  apply (default_kept initial KInt "test_int_flag" (Py.VInt 2137) Py.TInt EmptyString false).
  - reflexivity.
  - intros x H. discriminate H.
Defined.

(** C7 fails as stated: a float flag whose default is a NaN is not at its
    default, although nothing was assigned. *)
Lemma default_nan_not_default :
  Py.isinstance (Py.VFloat nan) Py.TFloat = true
  /\ exists st' f,
       FloatFlag initial "ratio" (Py.VFloat nan) EmptyString false = Ok st'
       /\ lookup st' "ratio" = Some f
       /\ Flag.value f = Py.VFloat nan
       /\ Flag.is_default f = false.
Proof.
  split; [reflexivity|].
  eexists _, _. split; [reflexivity|]. split; [reflexivity|]. split; reflexivity.
Qed.

(** ** One turn of the loop *)

Section Loop.

(** The loop, turn by turn. *)
Lemma parse_loop_cons st p arg argv1 :
  parse_loop st p (arg :: argv1)
  = do t <- read_token arg argv1;
    do r <- assign st arg (fst (fst t)) (snd (fst t));
    parse_loop (fst r) (p ++ [snd r]) (snd t).
Proof.
  unfold read_token. simpl.
  destruct (Str.contains Str.eq_sign arg).
  - destruct (Str.split Str.eq_sign arg) as [|rn [|v [|x l]]]; try reflexivity.
    simpl. destruct (assign st arg rn (RStr v)) as [[st' name]| |]; reflexivity.
  - destruct (Str.startswith "--" arg).
    + simpl. destruct (assign st arg arg (RBool true)) as [[st' name]| |]; reflexivity.
    + destruct (Str.startswith "-" arg); [|reflexivity].
      destruct argv1 as [|v argv2]; [reflexivity|].
      simpl. destruct (assign st arg arg (RStr v)) as [[st' name]| |]; reflexivity.
Qed.

Lemma read_token_shorter arg argv1 rn v rest :
  read_token arg argv1 = Ok (rn, v, rest) -> length rest <= length argv1.
Proof.
  unfold read_token.
  destruct (Str.contains Str.eq_sign arg).
  - destruct (Str.split Str.eq_sign arg) as [|? [|? [|? ?]]]; try discriminate.
    intros [= _ _ <-]. lia.
  - destruct (Str.startswith "--" arg); [intros [= _ _ <-]; lia|].
    destruct (Str.startswith "-" arg); [|discriminate].
    destruct argv1; [discriminate|]. intros [= _ _ <-]. simpl. lia.
Qed.

Lemma read_token_app arg argv1 rn v rest more :
  read_token arg argv1 = Ok (rn, v, rest) ->
  read_token arg (argv1 ++ more) = Ok (rn, v, rest ++ more).
Proof.
  unfold read_token.
  destruct (Str.contains Str.eq_sign arg).
  - destruct (Str.split Str.eq_sign arg) as [|? [|? [|? ?]]]; try discriminate.
    now intros [= <- <- <-].
  - destruct (Str.startswith "--" arg); [now intros [= <- <- <-]|].
    destruct (Str.startswith "-" arg); [|discriminate].
    destruct argv1; [discriminate|]. now intros [= <- <- <-].
Qed.

Lemma token_names_cons arg argv1 rn v rest :
  read_token arg argv1 = Ok (rn, v, rest) ->
  token_names (arg :: argv1) = Str.remove Str.dash rn :: token_names rest.
Proof.
  unfold read_token. simpl.
  destruct (Str.contains Str.eq_sign arg).
  - destruct (Str.split Str.eq_sign arg) as [|? [|? [|? ?]]]; try discriminate.
    now intros [= <- _ <-].
  - destruct (Str.startswith "--" arg); [now intros [= <- _ <-]|].
    destruct (Str.startswith "-" arg); [|discriminate].
    destruct argv1; [discriminate|]. now intros [= <- _ <-].
Qed.

(** Induction over the argument list as the loop consumes it. *)
Lemma argv_ind (P : list string -> Prop) :
  P [] ->
  (forall arg argv1,
      (forall rest, length rest <= length argv1 -> P rest) -> P (arg :: argv1)) ->
  forall argv, P argv.
Proof.
  intros Hnil Hcons argv.
  assert (H : forall n l, length l <= n -> P l).
  { induction n as [|n IH]; intros [|a l] Hl; simpl in Hl; try assumption; try lia.
    apply Hcons. intros rest Hr. apply IH. lia. }
  apply (H (length argv)). lia.
Qed.

(** What a successful assignment has done. *)
Lemma assign_inv st arg rn v st' name :
  assign st arg rn v = Ok (st', name) ->
  name = Str.remove Str.dash rn
  /\ exists ref f conv,
       Dict.get name (_flags_registered st) = Some ref
       /\ objs st !! ref = Some f
       /\ (is_bool_flag f && negb (Str.startswith "--" rn) = false)
       /\ call_type (Flag.type f) v = inl conv
       /\ st' = with_value st ref f conv.
Proof.
  unfold assign, lookup.
  destruct (Dict.get (Str.remove Str.dash rn) (_flags_registered st)) as [ref|] eqn:Hg;
    [|discriminate].
  destruct (objs st !! ref) as [f|] eqn:Hf; [|discriminate].
  destruct (is_bool_flag f && negb (Str.startswith "--" rn)) eqn:Hb; [discriminate|].
  unfold Flag.set_value.
  destruct (call_type (Flag.type f) v) as [conv|[]] eqn:Hc; try discriminate.
  simpl. intros [= <- <-]. split; [reflexivity|].
  exists ref, f, conv. repeat split; assumption.
Qed.

(** [flags_provided] grows by the names of the tokens. *)
Lemma parse_loop_provided argv : forall st p st' p',
  parse_loop st p argv = Ok (st', p') -> p' = (p ++ token_names argv)%list.
Proof.
  induction argv as [|arg argv1 IH] using argv_ind; intros st p st' p'.
  - simpl. intros [= _ <-]. now rewrite app_nil_r.
  - rewrite parse_loop_cons.
    destruct (read_token arg argv1) as [[[rn v] rest]| |] eqn:Hr; try discriminate.
    rewrite (token_names_cons _ _ _ _ _ Hr). cbn [bind fst snd].
    destruct (assign st arg rn v) as [[st1 name]| |] eqn:Ha; try discriminate.
    cbn [bind fst snd]. intros H. apply IH in H; [|eapply read_token_shorter; eassumption].
    apply assign_inv in Ha as [-> _].
    rewrite H, <- app_assoc. reflexivity.
Qed.

(** A list that the loop accepts can be followed by more tokens. *)
Lemma parse_loop_app pre : forall st p st1 p1 more,
  parse_loop st p pre = Ok (st1, p1) ->
  parse_loop st p (pre ++ more) = parse_loop st1 p1 more.
Proof.
  induction pre as [|arg argv1 IH] using argv_ind; intros st p st1 p1 more.
  - simpl. now intros [= -> ->].
  - rewrite <- app_comm_cons, !parse_loop_cons.
    destruct (read_token arg argv1) as [[[rn v] rest]| |] eqn:Hr; try discriminate.
    rewrite (read_token_app _ _ _ _ _ more Hr). simpl.
    destruct (assign st arg rn v) as [[st2 name]| |]; try discriminate.
    simpl. apply IH. eapply read_token_shorter; eassumption.
Qed.

End Loop.

(** ** The shape of the state is kept *)

Section Invariant.

(** A class returns an instance of itself. *)
Lemma call_type_isinstance t r conv :
  call_type t r = inl conv -> Py.isinstance conv t = true.
Proof.
  destruct t; simpl.
  - destruct (Py.to_int (raw_val r)); [|discriminate]. now intros [= <-].
  - destruct (Py.to_float (raw_val r)); [|discriminate]. now intros [= <-].
  - now intros [= <-].
  - now intros [= <-].
Qed.

Lemma with_value_wf st ref f v :
  wf st -> objs st !! ref = Some f -> Py.isinstance v (Flag.type f) = true ->
  wf (with_value st ref f v).
Proof.
  intros [Hk Hu Hr Hs Hc] Hf Hv. constructor; simpl; try assumption.
  - intros n r Hn. destruct (Hr n r Hn) as (f0 & Hf0 & Hname).
    destruct (decide (ref = r)) as [->|Hne].
    + rewrite list_lookup_insert_eq by (eapply lookup_lt_Some; eassumption).
      eexists. split; [reflexivity|]. simpl. congruence.
    + rewrite list_lookup_insert_ne by assumption. eauto.
  - apply Forall_insert; [assumption|].
    destruct (Forall_lookup_1 _ _ _ _ Hc Hf) as (Ht & _ & Hd).
    repeat split; assumption.
Qed.

Lemma assign_wf st arg rn v st' name :
  wf st -> assign st arg rn v = Ok (st', name) -> wf st'.
Proof.
  intros Hwf Ha. apply assign_inv in Ha as (_ & ref & f & conv & _ & Hf & _ & Hc & ->).
  apply with_value_wf; [assumption..|]. eapply call_type_isinstance; eassumption.
Qed.

Lemma parse_loop_wf argv : forall st p st' p',
  wf st -> parse_loop st p argv = Ok (st', p') -> wf st'.
Proof.
  induction argv as [|arg argv1 IH] using argv_ind; intros st p st' p' Hwf.
  - simpl. now intros [= <- _].
  - rewrite parse_loop_cons.
    destruct (read_token arg argv1) as [[[rn v] rest]| |] eqn:Hr; try discriminate.
    cbn [bind fst snd].
    destruct (assign st arg rn v) as [[st1 name]| |] eqn:Ha; try discriminate.
    cbn [bind fst snd]. apply IH; [eapply read_token_shorter; eassumption|].
    eapply assign_wf; eassumption.
Qed.

(** The loop leaves both dictionaries as they are. *)
Lemma parse_loop_dicts argv : forall st p st' p',
  parse_loop st p argv = Ok (st', p') ->
  _flags_registered st' = _flags_registered st
  /\ _unsatisfied_mandatory st' = _unsatisfied_mandatory st.
Proof.
  induction argv as [|arg argv1 IH] using argv_ind; intros st p st' p'.
  - simpl. now intros [= <- _].
  - rewrite parse_loop_cons.
    destruct (read_token arg argv1) as [[[rn v] rest]| |] eqn:Hr; try discriminate.
    cbn [bind fst snd].
    destruct (assign st arg rn v) as [[st1 name]| |] eqn:Ha; try discriminate.
    cbn [bind fst snd]. intros H.
    apply IH in H; [|eapply read_token_shorter; eassumption].
    apply assign_inv in Ha as (_ & ref & f & conv & _ & _ & _ & _ & ->).
    exact H.
Qed.

Lemma initial_wf : wf initial.
Proof.
  constructor; simpl; try constructor; intros n ref H; discriminate H.
Qed.

Lemma register_wf st flag st' :
  wf st -> coherent flag -> _register_flag st flag = Ok st' -> wf st'.
Proof.
  intros [Hk Hu Hr Hs Hc] Hflag. unfold _register_flag.
  destruct (Dict.mem (Flag.name flag) (_flags_registered st)) eqn:Hm; [discriminate|].
  apply mem_false in Hm. intros [= <-].
  assert (Hnu : Dict.get (Flag.name flag) (_unsatisfied_mandatory st) = None).
  { destruct (Dict.get (Flag.name flag) (_unsatisfied_mandatory st)) eqn:E; [|reflexivity].
    apply Hs in E. congruence. }
  constructor; simpl.
  - rewrite keys_set_new by assumption. apply NoDup_app. repeat split.
    + assumption.
    + intros x Hx Hin. apply list_elem_of_singleton in Hin. subst x.
      now apply get_None_keys in Hm.
    + apply NoDup_singleton.
  - destruct (Flag.mandatory flag); [|assumption].
    rewrite keys_set_new by assumption. apply NoDup_app. repeat split.
    + assumption.
    + intros x Hx Hin. apply list_elem_of_singleton in Hin. subst x.
      now apply get_None_keys in Hnu.
    + apply NoDup_singleton.
  - intros n r Hn. destruct (decide (Flag.name flag = n)) as [<-|Hne].
    + rewrite get_set_eq in Hn. injection Hn as <-.
      exists flag. split; [now apply list_lookup_middle | reflexivity].
    + rewrite get_set_ne in Hn by assumption.
      destruct (Hr n r Hn) as (f0 & Hf0 & Hname). exists f0. split; [|assumption].
      rewrite lookup_app_l; [assumption|]. eapply lookup_lt_Some; eassumption.
  - intros n r Hn. destruct (decide (Flag.name flag = n)) as [<-|Hne].
    + rewrite get_set_eq. destruct (Flag.mandatory flag).
      * now rewrite get_set_eq in Hn.
      * congruence.
    + rewrite get_set_ne by assumption. apply Hs.
      destruct (Flag.mandatory flag); [|assumption].
      now rewrite get_set_ne in Hn.
  - apply Forall_app. split; [assumption|]. now apply Forall_singleton.
Qed.

(** [_Flag.__init__] registers a flag with the fields it was given. *)
Lemma Flag_init_register st k name d t desc mandatory st' :
  _Flag_init st k name d t desc mandatory = Ok st' ->
  exists flag,
    _register_flag st flag = Ok st'
    /\ Flag.cls flag = k /\ Flag.name flag = name /\ Flag.type flag = t
    /\ Flag.default flag = d /\ Flag.value flag = d
    /\ Flag.mandatory flag = mandatory
    /\ Py.isinstance d t = true.
Proof.
  unfold _Flag_init, _check_against.
  destruct (Py.isinstance d t); [|discriminate]. simpl.
  destruct (_get_arg_name desc) as [arg_name| |]; [|discriminate..]. simpl.
  intros H. eexists. split; [exact H|]. repeat split.
Qed.

Lemma Flag_init_wf st k name d desc mandatory st' :
  wf st -> _Flag_init st k name d (class_type k) desc mandatory = Ok st' -> wf st'.
Proof.
  intros Hwf H.
  apply Flag_init_register in H as (flag & Hreg & Hk & _ & Ht & Hd & Hv & _ & Hi).
  eapply register_wf; [exact Hwf | | exact Hreg].
  repeat split; rewrite ?Hv, ?Hd, ?Ht, ?Hk; auto.
Qed.

Lemma constructed_wf st : constructed st -> wf st.
Proof.
  induction 1 as [|st name d desc m st' _ IH H|st name d desc m st' _ IH H
                  |st name d desc m st' _ IH H|st name desc st' _ IH H].
  - apply initial_wf.
  - eapply (Flag_init_wf _ KInt); eassumption.
  - eapply (Flag_init_wf _ KFloat); eassumption.
  - eapply (Flag_init_wf _ KStr); eassumption.
  - eapply (Flag_init_wf _ KBool); eassumption.
Qed.

(** Before [parse] runs, the pending mandatory flags are the mandatory
    flags, in the order of their registration. *)
Lemma register_unsat st flag st' :
  wf st -> _register_flag st flag = Ok st' ->
  Dict.keys (_unsatisfied_mandatory st') =
  Dict.keys (_unsatisfied_mandatory st)
  ++ (if Flag.mandatory flag then [Flag.name flag] else []).
Proof.
  intros [Hk Hu Hr Hs Hc]. unfold _register_flag.
  destruct (Dict.mem (Flag.name flag) (_flags_registered st)) eqn:Hm; [discriminate|].
  apply mem_false in Hm. intros [= <-]. simpl.
  destruct (Flag.mandatory flag); [|now rewrite app_nil_r].
  apply keys_set_new.
  destruct (Dict.get (Flag.name flag) (_unsatisfied_mandatory st)) eqn:E; [|reflexivity].
  apply Hs in E. congruence.
Qed.

Lemma register_objs st flag st' :
  _register_flag st flag = Ok st' -> objs st' = objs st ++ [flag].
Proof.
  unfold _register_flag. destruct (Dict.mem _ _); [discriminate|]. now intros [= <-].
Qed.

Lemma Flag_init_unsat st k name d t desc mandatory st' :
  wf st -> Dict.keys (_unsatisfied_mandatory st) = mandatory_names st ->
  _Flag_init st k name d t desc mandatory = Ok st' ->
  Dict.keys (_unsatisfied_mandatory st') = mandatory_names st'.
Proof.
  intros Hwf Hkeys H.
  apply Flag_init_register in H as (flag & Hreg & _ & Hn & _ & _ & _ & Hm & _).
  rewrite (register_unsat _ _ _ Hwf Hreg), Hkeys.
  unfold mandatory_names. rewrite (register_objs _ _ _ Hreg), filter_app, map_app.
  f_equal. destruct (Flag.mandatory flag) eqn:E.
  - now rewrite filter_cons_True by assumption.
  - rewrite filter_cons_False by congruence. reflexivity.
Qed.

Lemma constructed_unsat st :
  constructed st -> Dict.keys (_unsatisfied_mandatory st) = mandatory_names st.
Proof.
  induction 1 as [|st name d desc m st' Hc IH H|st name d desc m st' Hc IH H
                  |st name d desc m st' Hc IH H|st name desc st' Hc IH H];
    [reflexivity|..]; apply constructed_wf in Hc;
    eapply Flag_init_unsat; eassumption.
Qed.

End Invariant.

(** ** The flags [parse] does not name, and the mandatory flags *)

Section Frame.

Lemma with_value_lookup_other st ref f v name n :
  wf st -> Dict.get name (_flags_registered st) = Some ref -> objs st !! ref = Some f ->
  n <> name -> lookup (with_value st ref f v) n = lookup st n.
Proof.
  intros Hwf Hg Hf Hne. unfold lookup. simpl.
  destruct (Dict.get n (_flags_registered st)) as [r|] eqn:Hn; [|reflexivity].
  apply list_lookup_insert_ne. intros ->.
  destruct (wf_refs _ Hwf _ _ Hn) as (f0 & Hf0 & Hname0).
  destruct (wf_refs _ Hwf _ _ Hg) as (f1 & Hf1 & Hname1).
  congruence.
Qed.

Lemma parse_loop_frame n argv : forall st p st' p',
  wf st -> parse_loop st p argv = Ok (st', p') -> n ∉ token_names argv ->
  lookup st' n = lookup st n.
Proof.
  induction argv as [|arg argv1 IH] using argv_ind; intros st p st' p' Hwf.
  - simpl. now intros [= <- _].
  - rewrite parse_loop_cons.
    destruct (read_token arg argv1) as [[[rn v] rest]| |] eqn:Hr; try discriminate.
    rewrite (token_names_cons _ _ _ _ _ Hr). cbn [bind fst snd].
    destruct (assign st arg rn v) as [[st1 name]| |] eqn:Ha; try discriminate.
    cbn [bind fst snd]. intros H Hn. apply not_elem_of_cons in Hn as [Hne Hn].
    rewrite (IH rest (read_token_shorter _ _ _ _ _ Hr) _ _ _ _
               (assign_wf _ _ _ _ _ _ Hwf Ha) H Hn).
    apply assign_inv in Ha as (-> & ref & f & conv & Hg & Hf & _ & _ & ->).
    eapply with_value_lookup_other; eassumption.
Qed.

Lemma check_mandatory_Ok st p st' :
  check_mandatory st p = Ok st' ->
  objs st' = objs st /\ _flags_registered st' = _flags_registered st
  /\ _unsatisfied_mandatory st' = [].
Proof.
  unfold check_mandatory.
  destruct (fold_left _ p (_unsatisfied_mandatory st)) as [|[key ref] l].
  - now intros [= <-].
  - destruct (objs st !! ref); discriminate.
Qed.

Lemma keys_fold_pop {V} (p : list string) : forall d : list (string * V),
  NoDup (Dict.keys d) ->
  Dict.keys (fold_left (fun d flag_name => Dict.pop flag_name d) p d)
  = filter (fun k => k ∉ p) (Dict.keys d).
Proof.
  induction p as [|n p IH]; intros d Hnd; simpl.
  - symmetry. apply filter_keep. intros x _ Hx. inversion Hx.
  - rewrite IH by (rewrite keys_pop by assumption; now apply NoDup_filter).
    rewrite keys_pop by assumption. rewrite list_filter_filter.
    apply list_filter_iff. intros x. rewrite not_elem_of_cons. tauto.
Qed.

Lemma fold_pop_sublist {V} (p : list string) : forall (d : list (string * V)) x,
  x ∈ fold_left (fun d flag_name => Dict.pop flag_name d) p d -> x ∈ d.
Proof.
  induction p as [|n p IH]; intros d x; simpl; [auto|].
  intros H. apply IH in H. eapply pop_sublist; eassumption.
Qed.

(** The check names the first pending flag that was not provided. *)
Lemma check_mandatory_first st p n :
  wf st ->
  head (filter (fun k => k ∉ p) (Dict.keys (_unsatisfied_mandatory st))) = Some n ->
  check_mandatory st p = Exit (MissingMandatoryFlag n).
Proof.
  intros Hwf Hhead. unfold check_mandatory.
  rewrite <- keys_fold_pop in Hhead by apply (wf_unsat_keys _ Hwf).
  pose proof (fold_pop_sublist p (_unsatisfied_mandatory st)) as Hsub.
  destruct (fold_left _ p (_unsatisfied_mandatory st)) as [|[key ref] l];
    [discriminate|].
  simpl in Hhead. injection Hhead as ->.
  specialize (Hsub (n, ref) (list_elem_of_here _ _)).
  apply (elem_get _ _ _ (wf_unsat_keys _ Hwf)) in Hsub.
  apply (wf_unsat _ Hwf) in Hsub.
  destruct (wf_refs _ Hwf _ _ Hsub) as (f & -> & ->). reflexivity.
Qed.

End Frame.

(** C10: after a successful [parse], a flag that no token of the argument
    list names is as it was before, its value included. *)
Theorem parse_frame st prog argv st' n :
  wf st ->
  parse st (prog :: argv) = Ok st' ->
  n ∉ token_names argv ->
  lookup st' n = lookup st n.
Proof.
  intros Hwf. unfold parse.
  destruct (parse_loop st [] argv) as [[st1 p]| |] eqn:Hloop; try discriminate.
  cbn [bind fst snd]. intros Hcheck Hn.
  apply check_mandatory_Ok in Hcheck as (Hobjs & Hregs & _).
  rewrite <- (parse_loop_frame n argv _ _ _ _ Hwf Hloop Hn).
  unfold lookup. now rewrite Hobjs, Hregs.
Qed.

(** C5: when the loop has consumed the whole argument list and some
    mandatory flag is named by no token, [parse] ends with
    [MissingMandatoryFlag] for the first registered mandatory flag that no
    token names. *)
Theorem parse_missing_mandatory st prog argv r f :
  constructed st ->
  parse_loop st [] argv = Ok r ->
  f ∈ objs st -> Flag.mandatory f = true -> Flag.name f ∉ token_names argv ->
  exists n,
    first_unsatisfied st argv = Some n
    /\ parse st (prog :: argv) = Exit (MissingMandatoryFlag n).
Proof.
  intros Hc Hloop Hf Hm Hn. destruct r as [st1 p].
  pose proof (constructed_wf _ Hc) as Hwf.
  pose proof (parse_loop_provided _ _ _ _ _ Hloop) as Hp. simpl in Hp. subst p.
  destruct (parse_loop_dicts _ _ _ _ _ Hloop) as [_ Hunsat].
  unfold first_unsatisfied.
  destruct (filter (fun n => n ∉ token_names argv) (mandatory_names st))
    as [|n l] eqn:Hfilter.
  - exfalso. eapply (filter_nil_not_elem_of _ _ (Flag.name f) Hfilter Hn).
    unfold mandatory_names. apply list_elem_of_fmap_2.
    apply list_elem_of_filter. split; assumption.
  - exists n. split; [reflexivity|].
    unfold parse. rewrite Hloop. cbn [bind fst snd].
    apply check_mandatory_first; [eapply parse_loop_wf; eassumption|].
    now rewrite Hunsat, (constructed_unsat _ Hc), Hfilter.
Qed.

Lemma demo_constructed : constructed demo_x /\ constructed demo_verbose /\ constructed demo.
Proof.
  assert (Hx : constructed demo_x).
  { apply (constructed_IntFlag initial "x" (Py.VInt 0) "an 'N' value" false);
      [constructor | reflexivity]. }
  assert (Hv : constructed demo_verbose).
  { apply (constructed_BoolFlag demo_x "verbose" "be verbose"); [exact Hx | reflexivity]. }
  repeat split; try assumption.
  apply (constructed_StrFlag demo_verbose "target" (Py.VStr EmptyString) "where to go" true);
    [exact Hv | reflexivity].
Qed.

Lemma parse_frame_witness :
  exists st',
    parse demo ["prog"; "-x=5"; "-target"; "home"] = Ok st'
    /\ lookup st' "verbose" = lookup demo "verbose".
Proof.
  eexists. split; [reflexivity|].
  apply (parse_frame demo "prog" ["-x=5"; "-target"; "home"]).
  - apply constructed_wf, demo_constructed.
  - reflexivity.
  - apply (bool_decide_unpack _). vm_compute. exact I.
Defined.

Lemma parse_missing_mandatory_witness :
  exists n,
    first_unsatisfied demo ["-x=5"; "--verbose"] = Some n
    /\ parse demo ["prog"; "-x=5"; "--verbose"] = Exit (MissingMandatoryFlag n).
Proof.
  eapply (parse_missing_mandatory demo "prog" ["-x=5"; "--verbose"] _
            (Flag.mk KStr "target" (Py.VStr EmptyString) "where to go" true Py.TStr
               EmptyString (Py.VStr EmptyString))).
  - apply demo_constructed.
  - reflexivity.
  - do 2 apply list_elem_of_further. apply list_elem_of_here.
  - reflexivity.
  - apply (bool_decide_unpack _). vm_compute. exact I.
Defined.

(** ** The forms of a token *)

Section Forms.

Lemma split_no_sep c s : Str.contains c s = false -> Str.split c s = [s].
Proof.
  induction s as [|a s IH]; simpl; [reflexivity|].
  destruct (Ascii.eqb a c); [discriminate|]. intros H. now rewrite IH.
Qed.

Lemma split_two_contains c s a b : Str.split c s = [a; b] -> Str.contains c s = true.
Proof.
  intros H. destruct (Str.contains c s) eqn:E; [reflexivity|].
  rewrite split_no_sep in H by assumption. discriminate.
Qed.

(** An assignment keeps every registered flag and its class. *)
Lemma with_value_lookup_cls st ref f v n f0 :
  objs st !! ref = Some f -> lookup st n = Some f0 ->
  exists f', lookup (with_value st ref f v) n = Some f' /\ Flag.cls f' = Flag.cls f0.
Proof.
  unfold lookup. simpl. intros Hf.
  destruct (Dict.get n (_flags_registered st)) as [r|]; [|discriminate].
  intros Hr. destruct (decide (ref = r)) as [->|Hne].
  - rewrite list_lookup_insert_eq by (eapply lookup_lt_Some; eassumption).
    eexists. split; [reflexivity|]. simpl. congruence.
  - rewrite list_lookup_insert_ne by assumption. eauto.
Qed.

Lemma parse_loop_cls n argv : forall st p st' p' f,
  parse_loop st p argv = Ok (st', p') -> lookup st n = Some f ->
  exists f', lookup st' n = Some f' /\ Flag.cls f' = Flag.cls f.
Proof.
  induction argv as [|arg argv1 IH] using argv_ind; intros st p st' p' f.
  - simpl. intros [= <- _]. eauto.
  - rewrite parse_loop_cons.
    destruct (read_token arg argv1) as [[[rn v] rest]| |] eqn:Hr; try discriminate.
    cbn [bind fst snd].
    destruct (assign st arg rn v) as [[st1 name]| |] eqn:Ha; try discriminate.
    cbn [bind fst snd]. intros H Hl.
    apply assign_inv in Ha as (_ & ref & f1 & conv & _ & Hf1 & _ & _ & ->).
    destruct (with_value_lookup_cls _ _ _ conv _ _ Hf1 Hl) as (f2 & Hl2 & Hc2).
    destruct (IH rest (read_token_shorter _ _ _ _ _ Hr) _ _ _ _ _ H Hl2)
      as (f' & Hl' & Hc').
    exists f'. split; [assumption | congruence].
Qed.

(** A boolean flag named through a [real_name] without [--] is refused. *)
Lemma assign_boolean st arg rn v f :
  lookup st (Str.remove Str.dash rn) = Some f -> is_bool_flag f = true ->
  Str.startswith "--" rn = false ->
  assign st arg rn v
  = Exit (BooleanFormatRequired
            (if Str.contains Str.eq_sign arg then "-flag_name=value" else "-flag_name value")).
Proof.
  intros Hl Hb Hs. unfold assign. rewrite Hl.
  unfold lookup in Hl.
  destruct (Dict.get (Str.remove Str.dash rn) (_flags_registered st)); [|discriminate].
  now rewrite Hb, Hs.
Qed.

(** [True] converts in every class. *)
Lemma call_type_true t : call_type t (RBool true) = inl (true_as t).
Proof. destruct t; reflexivity. Qed.

Lemma with_value_lookup_same st ref f v name :
  Dict.get name (_flags_registered st) = Some ref -> objs st !! ref = Some f ->
  Flag.value <$> lookup (with_value st ref f v) name = Some v.
Proof.
  intros Hg Hf. unfold lookup. simpl. rewrite Hg.
  rewrite list_lookup_insert_eq by (eapply lookup_lt_Some; eassumption).
  reflexivity.
Qed.

(** A token [-name] that ends the list: [argv.pop(0)] finds nothing. *)
Lemma single_dash_last st p tok :
  Str.contains Str.eq_sign tok = false -> Str.startswith "--" tok = false ->
  Str.startswith "-" tok = true ->
  parse_loop st p [tok] = Raise Py.IndexError.
Proof. intros H1 H2 H3. simpl. now rewrite H1, H2, H3. Qed.

(** A token with two [=] or more: the two names cannot take the fields. *)
Lemma many_equals st p tok a b c l rest :
  Str.split Str.eq_sign tok = a :: b :: c :: l ->
  parse_loop st p (tok :: rest) = Raise Py.ValueError.
Proof.
  intros H. simpl. rewrite H.
  destruct (Str.contains Str.eq_sign tok) eqn:E; [reflexivity|].
  rewrite split_no_sep in H by assumption. discriminate.
Qed.

End Forms.

(** The forms that the check of the boolean flags refuses.  Once the tokens
    before it are consumed, a token that names a registered boolean flag
    through a [real_name] that does not start with [--] ends [parse] with
    [BooleanFormatRequired]: the form [name=value] with one [=] and a name
    part without [--], and the form [-name] followed by a value. *)
Theorem boolean_needs_double_dash st prog pre r n f tok rest hint :
  lookup st n = Some f -> is_bool_flag f = true ->
  parse_loop st [] pre = Ok r ->
  ((exists rn v, Str.split Str.eq_sign tok = [rn; v]
       /\ Str.remove Str.dash rn = n /\ Str.startswith "--" rn = false
       /\ hint = "-flag_name=value")
   \/ (Str.contains Str.eq_sign tok = false
       /\ Str.startswith "-" tok = true /\ Str.startswith "--" tok = false
       /\ Str.remove Str.dash tok = n /\ rest <> []
       /\ hint = "-flag_name value")) ->
  parse st (prog :: pre ++ tok :: rest) = Exit (BooleanFormatRequired hint).
Proof.
  intros Hl Hb Hpre Hform. destruct r as [st1 p1].
  destruct (parse_loop_cls n _ _ _ _ _ _ Hpre Hl) as (f1 & Hl1 & Hc1).
  assert (Hb1 : is_bool_flag f1 = true) by (unfold is_bool_flag in *; now rewrite Hc1).
  unfold parse. rewrite (parse_loop_app _ _ _ _ _ _ Hpre), parse_loop_cons.
  destruct Hform as [(rn & v & Hsplit & Hn & Hs & ->)
                    |(Heq & Hdash & Hs & Hn & Hrest & ->)]; subst n.
  - pose proof (split_two_contains _ _ _ _ Hsplit) as Hc.
    unfold read_token. rewrite Hc, Hsplit. cbn [bind fst snd].
    rewrite (assign_boolean _ _ _ _ _ Hl1 Hb1 Hs), Hc. reflexivity.
  - destruct rest as [|v rest]; [contradiction|].
    unfold read_token. rewrite Heq, Hs, Hdash. cbn [bind fst snd].
    rewrite (assign_boolean _ _ _ _ _ Hl1 Hb1 Hs), Heq. reflexivity.
Qed.

Lemma boolean_needs_double_dash_witness :
  parse demo ["prog"; "-x=5"; "-verbose=true"; "-target=home"]
  = Exit (BooleanFormatRequired "-flag_name=value").
Proof.
  eapply (boolean_needs_double_dash demo "prog" ["-x=5"] _ "verbose"
           (Flag.mk KBool "verbose" (Py.VBool false) "be verbose" false Py.TBool
              EmptyString (Py.VBool false))
           "-verbose=true" ["-target=home"]).
  - reflexivity.
  - reflexivity.
  - reflexivity.
  - left. exists "-verbose", "true". repeat split.
Defined.

(** C1: the code at the failing input.  The token [--verbose=no] for the
    registered boolean flag [verbose] is not refused: [real_name] is
    [--verbose], which passes the check, and the flag takes the truth value
    of the text [no], which is [True]. *)
Theorem boolean_equals_form_accepted :
  Str.split Str.eq_sign "--verbose=no" = ["--verbose"; "no"]
  /\ (is_bool_flag <$> lookup demo_verbose "verbose") = Some true
  /\ exists st',
       parse demo_verbose ["prog"; "--verbose=no"] = Ok st'
       /\ Flag.value <$> lookup st' "verbose" = Some (Py.VBool true).
Proof. split; [reflexivity|]. split; [reflexivity|]. eexists. split; reflexivity. Qed.

(** C2: the code at the failing input.  A token [-x] that ends the argument
    list makes [parse] raise [IndexError]; no [_write_exc] is reached. *)
Theorem single_dash_last_raises :
  parse demo_x ["prog"; "-x"] = Raise Py.IndexError
  /\ forall e, parse demo_x ["prog"; "-x"] <> Exit e.
Proof. split; [reflexivity | discriminate]. Qed.

(** C3: the code at the failing input.  The token [-flag=a=b] for a
    registered string flag makes [parse] raise [ValueError]: [split] gives
    three fields for two names, and nothing is assigned. *)
Theorem second_equals_raises :
  let st := started (StrFlag initial "flag" (Py.VStr EmptyString) EmptyString false) in
  Str.split Str.eq_sign "-flag=a=b" = ["-flag"; "a"; "b"]
  /\ parse st ["prog"; "-flag=a=b"] = Raise Py.ValueError
  /\ Flag.value <$> lookup st "flag" = Some (Py.VStr EmptyString).
Proof. repeat split. Qed.

(** ** The assignments of a pass *)

Section Writes.

Lemma token_values_cons arg argv1 rn v rest :
  read_token arg argv1 = Ok (rn, v, rest) ->
  token_values (arg :: argv1) = (Str.remove Str.dash rn, v) :: token_values rest.
Proof.
  unfold read_token. simpl.
  destruct (Str.contains Str.eq_sign arg).
  - destruct (Str.split Str.eq_sign arg) as [|? [|? [|? ?]]]; try discriminate.
    now intros [= <- <- <-].
  - destruct (Str.startswith "--" arg); [now intros [= <- <- <-]|].
    destruct (Str.startswith "-" arg); [|discriminate].
    destruct argv1; [discriminate|]. now intros [= <- <- <-].
Qed.

(** An assignment does not change what a token stands for. *)
Lemma with_value_assignment_of st ref f v t :
  objs st !! ref = Some f ->
  assignment_of (with_value st ref f v) t = assignment_of st t.
Proof.
  intros Hf. unfold assignment_of. simpl.
  destruct (Dict.get (fst t) (_flags_registered st)) as [r|]; [|reflexivity].
  destruct (decide (ref = r)) as [->|Hne].
  - rewrite list_lookup_insert_eq by (eapply lookup_lt_Some; eassumption).
    now rewrite Hf.
  - now rewrite list_lookup_insert_ne.
Qed.

(** The loop performs one write for each token, in the order of the tokens. *)
Lemma parse_loop_writes argv : forall st p st' p',
  parse_loop st p argv = Ok (st', p') ->
  exists ws,
    Forall2 (fun t w => assignment_of st t = Some w) (token_values argv) ws
    /\ st' = fold_left store ws st.
Proof.
  induction argv as [|arg argv1 IH] using argv_ind; intros st p st' p'.
  - simpl. intros [= <- _]. exists []. split; [constructor | reflexivity].
  - rewrite parse_loop_cons.
    destruct (read_token arg argv1) as [[[rn v] rest]| |] eqn:Hr; try discriminate.
    rewrite (token_values_cons _ _ _ _ _ Hr). cbn [bind fst snd].
    destruct (assign st arg rn v) as [[st1 name]| |] eqn:Ha; try discriminate.
    cbn [bind fst snd]. intros H.
    apply IH in H as (ws & Hall & ->); [|eapply read_token_shorter; eassumption].
    apply assign_inv in Ha as (-> & ref & f & conv & Hg & Hf & _ & Hc & ->).
    exists ((ref, conv) :: ws). split.
    + constructor.
      * unfold assignment_of. simpl. now rewrite Hg, Hf, Hc.
      * eapply Forall2_impl; [exact Hall|]. intros t w Ht.
        cbv beta in Ht. now rewrite (with_value_assignment_of _ _ _ _ _ Hf) in Ht.
    + cbn [fold_left]. f_equal. unfold store. cbn [fst snd]. now rewrite Hf.
Qed.

Lemma parse_loop_names argv : forall st p st' p',
  parse_loop st p argv = Ok (st', p') -> (token_values argv).*1 = token_names argv.
Proof.
  induction argv as [|arg argv1 IH] using argv_ind; intros st p st' p'.
  - reflexivity.
  - rewrite parse_loop_cons.
    destruct (read_token arg argv1) as [[[rn v] rest]| |] eqn:Hr; try discriminate.
    rewrite (token_values_cons _ _ _ _ _ Hr), (token_names_cons _ _ _ _ _ Hr).
    cbn [bind fst snd].
    destruct (assign st arg rn v) as [[st1 name]| |] eqn:Ha; try discriminate.
    cbn [bind fst snd]. intros H.
    apply IH in H; [|eapply read_token_shorter; eassumption].
    rewrite fmap_cons. cbn [fst]. now rewrite H.
Qed.

(** As many writes go to the object of a name as tokens carry the name. *)
Lemma writes_count st n ref (tv : list (string * raw)) ws :
  wf st -> Dict.get n (_flags_registered st) = Some ref ->
  Forall2 (fun t w => assignment_of st t = Some w) tv ws ->
  assignments ref ws = length (filter (fun x => x = n) tv.*1).
Proof.
  intros Hwf Hg Hall. unfold assignments.
  induction Hall as [|[name v] [r conv] tv ws Ht _ IH]; [reflexivity|].
  unfold assignment_of in Ht. simpl in Ht.
  destruct (Dict.get name (_flags_registered st)) as [r0|] eqn:Hn; [|discriminate].
  destruct (objs st !! r0) as [f|] eqn:Hf; [|discriminate].
  destruct (call_type (Flag.type f) v); [|discriminate]. injection Ht as <- _.
  cbn [fmap list_fmap fst].
  destruct (decide (name = n)) as [->|Hne].
  - assert (r0 = ref) by congruence. subst r0.
    rewrite !filter_cons_True by reflexivity. simpl. now rewrite IH.
  - assert (r0 <> ref).
    { intros ->. apply Hne.
      destruct (wf_refs _ Hwf _ _ Hn) as (f1 & Hf1 & <-).
      destruct (wf_refs _ Hwf _ _ Hg) as (f2 & Hf2 & <-). congruence. }
    rewrite !filter_cons_False by assumption. exact IH.
Qed.

Lemma store_length st w : length (objs (store st w)) = length (objs st).
Proof.
  unfold store. destruct (objs st !! fst w); [|reflexivity].
  simpl. apply length_insert.
Qed.

Lemma store_value st r v ref :
  r < length (objs st) ->
  Flag.value <$> objs (store st (r, v)) !! ref
  = if decide (r = ref) then Some v else Flag.value <$> objs st !! ref.
Proof.
  intros Hr. unfold store. simpl.
  destruct (objs st !! r) as [f|] eqn:Hf.
  - simpl. destruct (decide (r = ref)) as [->|Hne].
    + now rewrite list_lookup_insert_eq.
    + now rewrite list_lookup_insert_ne.
  - apply lookup_ge_None in Hf. lia.
Qed.

(** After a run of writes an object holds the value of the last write to it. *)
Lemma fold_store_last ref ws : forall st,
  Forall (fun w => fst w < length (objs st)) ws ->
  Flag.value <$> objs (fold_left store ws st) !! ref
  = match last (filter (fun w => fst w = ref) ws) with
    | Some w => Some (snd w)
    | None => Flag.value <$> objs st !! ref
    end.
Proof.
  induction ws as [|[r v] ws IH]; intros st Hall; [reflexivity|].
  apply Forall_cons in Hall as [Hr Hall]. simpl in Hr. cbn [fold_left].
  rewrite IH by (eapply Forall_impl; [exact Hall|]; intros w Hw;
                 now rewrite store_length).
  rewrite store_value by assumption.
  destruct (decide (r = ref)) as [->|Hne].
  - rewrite filter_cons_True by reflexivity. rewrite last_cons.
    now destruct (last (filter (fun w => fst w = ref) ws)).
  - now rewrite filter_cons_False by assumption.
Qed.

Lemma fold_store_registry ws : forall st,
  _flags_registered (fold_left store ws st) = _flags_registered st.
Proof.
  induction ws as [|w ws IH]; intros st; [reflexivity|].
  simpl. rewrite IH. unfold store. now destruct (objs st !! fst w).
Qed.

End Writes.

(** C4 (as amended): in a pass that the loop completes, the store is the
    store before the pass after one write for each token, in the order of
    the tokens, each write giving the flag that the token names the value
    of the token as the class of the flag converts it.  So a flag is
    assigned once for every token that names it, at most once when at most
    one token names it, and it keeps the value of the last of them. *)
Theorem assigned_once_per_token st argv st' flags_provided :
  wf st ->
  parse_loop st [] argv = Ok (st', flags_provided) ->
  exists ws,
    Forall2 (fun t w => assignment_of st t = Some w) (token_values argv) ws
    /\ st' = fold_left store ws st
    /\ flags_provided = token_names argv
    /\ forall n ref, Dict.get n (_flags_registered st) = Some ref ->
         assignments ref ws = length (filter (fun x => x = n) (token_names argv))
         /\ (length (filter (fun x => x = n) (token_names argv)) <= 1 ->
             assignments ref ws <= 1)
         /\ forall w, last (filter (fun w => fst w = ref) ws) = Some w ->
              Flag.value <$> lookup st' n = Some (snd w).
Proof.
  intros Hwf Hloop.
  destruct (parse_loop_writes _ _ _ _ _ Hloop) as (ws & Hall & Hst).
  pose proof (parse_loop_names _ _ _ _ _ Hloop) as Hnames.
  exists ws. split; [assumption|]. split; [assumption|].
  split; [now apply parse_loop_provided in Hloop|].
  intros n ref Hg.
  pose proof (writes_count _ _ _ _ _ Hwf Hg Hall) as Hcount.
  rewrite Hnames in Hcount.
  split; [assumption|]. split; [now rewrite Hcount|].
  intros w Hlast. unfold lookup.
  rewrite Hst, fold_store_registry, Hg.
  rewrite (fold_store_last ref ws st), Hlast; [reflexivity|].
  clear -Hall. induction Hall as [|t w tv ws Ht _ IH]; constructor; [|exact IH].
  unfold assignment_of in Ht.
  destruct (Dict.get (fst t) (_flags_registered st)) as [r|]; [|discriminate].
  destruct (objs st !! r) as [f|] eqn:Hf; [|discriminate].
  destruct (call_type (Flag.type f) (snd t)); [|discriminate].
  injection Ht as <-. simpl. eapply lookup_lt_Some; eassumption.
Qed.

Lemma assigned_once_per_token_witness :
  exists st' ws,
    parse_loop demo [] ["-x=5"; "-target"; "home"] = Ok (st', ["x"; "target"])
    /\ st' = fold_left store ws demo
    /\ assignments 0 ws = 1
    /\ Flag.value <$> lookup st' "x" = Some (Py.VInt 5).
Proof.
  destruct (assigned_once_per_token demo ["-x=5"; "-target"; "home"]
              (with_value
                 (with_value demo 0
                    (Flag.mk KInt "x" (Py.VInt 0) "an N value" false Py.TInt "N" (Py.VInt 0))
                    (Py.VInt 5))
                 2 (Flag.mk KStr "target" (Py.VStr EmptyString) "where to go" true Py.TStr
                      EmptyString (Py.VStr EmptyString))
                 (Py.VStr "home"))
              ["x"; "target"]
              (constructed_wf _ (proj2 (proj2 demo_constructed))) eq_refl)
    as (ws & _ & Hst & _ & Hcount).
  eexists _, ws. split; [reflexivity|]. split; [exact Hst|].
  split; [exact (proj1 (Hcount "x" 0 eq_refl))|]. reflexivity.
Defined.

(** C4 fails as stated: [parse] accepts a list that names [x] twice and
    assigns to [x] twice, first 1 and then 2. *)
Lemma repeated_name_assigned_twice :
  exists st1 st2,
    parse_loop demo_x [] ["-x=1"] = Ok (st1, ["x"])
    /\ Flag.value <$> lookup st1 "x" = Some (Py.VInt 1)
    /\ parse_loop demo_x [] ["-x=1"; "-x=2"] = Ok (st2, ["x"; "x"])
    /\ parse demo_x ["prog"; "-x=1"; "-x=2"] = Ok st2
    /\ Flag.value <$> lookup st2 "x" = Some (Py.VInt 2)
    /\ st2 = fold_left store [(0, Py.VInt 1); (0, Py.VInt 2)] demo_x
    /\ assignments 0 [(0, Py.VInt 1); (0, Py.VInt 2)] = 2.
Proof. eexists _, _. repeat split. Qed.

(** C9: a token [--name] without [=] that names a registered flag of
    another class than [BoolFlag] is not refused: the flag receives [True]
    as its class converts it, 1 for an [IntFlag], the text [True] for a
    [StrFlag], 1.0 for a [FloatFlag], and the loop goes on. *)
Theorem bare_double_dash_assigns_true st p tok rest ref f :
  Str.contains Str.eq_sign tok = false ->
  Str.startswith "--" tok = true ->
  Dict.get (Str.remove Str.dash tok) (_flags_registered st) = Some ref ->
  objs st !! ref = Some f ->
  is_bool_flag f = false ->
  coherent f ->
  parse_loop st p (tok :: rest)
  = parse_loop (with_value st ref f (true_as (class_type (Flag.cls f))))
      (p ++ [Str.remove Str.dash tok]) rest
  /\ Flag.value <$> lookup (with_value st ref f (true_as (class_type (Flag.cls f))))
                     (Str.remove Str.dash tok)
     = Some (true_as (class_type (Flag.cls f)))
  /\ (Flag.cls f = KInt -> true_as (class_type (Flag.cls f)) = Py.VInt 1)
  /\ (Flag.cls f = KStr -> true_as (class_type (Flag.cls f)) = Py.VStr "True")
  /\ (Flag.cls f = KFloat -> true_as (class_type (Flag.cls f)) = Py.VFloat 1).
Proof.
  intros Heq Hdd Hg Hf Hb (Ht & _ & _).
  split; [|split; [now apply with_value_lookup_same | repeat split; now intros ->]].
  rewrite <- Ht, parse_loop_cons. unfold read_token. rewrite Heq, Hdd. cbn [bind fst snd].
  unfold assign, lookup. rewrite Hg, Hf, Hb. cbn [andb].
  unfold Flag.set_value. rewrite call_type_true. reflexivity.
Qed.

Lemma bare_double_dash_assigns_true_witness :
  exists st',
    parse_loop demo [] ["--x"; "--target"] = Ok (st', ["x"; "target"])
    /\ Flag.value <$> lookup st' "x" = Some (Py.VInt 1)
    /\ Flag.value <$> lookup st' "target" = Some (Py.VStr "True").
Proof.
  eexists.
  destruct (bare_double_dash_assigns_true demo [] "--x" ["--target"] 0
              (Flag.mk KInt "x" (Py.VInt 0) "an N value" false Py.TInt "N" (Py.VInt 0)))
    as (Hloop & _); try reflexivity.
  - repeat split.
  - rewrite Hloop. repeat split.
Defined.

(** ** Comparing a flag with a value *)

Section Comparison.

Lemma int_op_rel o x y : Py.int_op o x y = int_rel o x y.
Proof.
  unfold Py.int_op, int_rel.
  destruct (Z.compare_spec x y) as [H|H|H]; destruct o; simpl; symmetry;
    rewrite ?Bool.negb_true_iff, ?Bool.negb_false_iff;
    first [apply Z.eqb_eq | apply Z.eqb_neq | apply Z.ltb_lt | apply Z.ltb_ge
          | apply Z.leb_le | apply Z.leb_gt]; lia.
Qed.

(** The value of an integer flag is an integer, [True] and [False]
    counting as 1 and 0. *)
Lemma int_flag_value f :
  coherent f -> Flag.cls f = KInt ->
  exists x, Py.to_int (Flag.value f) = inl x /\ Py.numeric (Flag.value f) = Some (inl x).
Proof.
  intros (Ht & Hv & _) Hk. rewrite Ht, Hk in Hv. simpl in Hv.
  destruct (Flag.value f) as [z|b|x|s]; try discriminate; eexists; split; reflexivity.
Qed.

Lemma float_flag_value f :
  coherent f -> Flag.cls f = KFloat -> exists x, Flag.value f = Py.VFloat x.
Proof.
  intros (Ht & Hv & _) Hk. rewrite Ht, Hk in Hv. simpl in Hv.
  destruct (Flag.value f) as [z|b|x|s]; try discriminate. eauto.
Qed.

End Comparison.

(** C8: for an integer flag and a value [v] that [int] converts to [z], each
    comparison of the flag with [v] is the comparison of its value with [z],
    which is the comparison of the two integers, and [==] holds exactly when
    [z] is the value; for a float flag and a value that [float] converts to
    [y], each comparison is the IEEE comparison of its value with [y]. *)
Theorem compare_as_value f v o :
  coherent f ->
  (Flag.cls f = KInt -> forall z, Py.to_int v = inl z ->
     Flag.IntFlag_compare o f v = Py.richcompare o (Flag.value f) (Py.VInt z)
     /\ exists x, Py.to_int (Flag.value f) = inl x
          /\ Flag.IntFlag_compare o f v = inl (int_rel o x z)
          /\ (Flag.IntFlag_compare Py.OpEq f v = inl true <-> z = x))
  /\ (Flag.cls f = KFloat -> forall y, Py.to_float v = inl y ->
     Flag.FloatFlag_compare o f v = Py.richcompare o (Flag.value f) (Py.VFloat y)
     /\ exists x, Flag.value f = Py.VFloat x
          /\ Flag.FloatFlag_compare o f v = inl (Py.float_op o x y)).
Proof.
  intros Hc. split.
  - intros Hk z Hz. unfold Flag.IntFlag_compare. rewrite Hz.
    split; [reflexivity|].
    destruct (int_flag_value f Hc Hk) as (x & Hx & Hnum). exists x.
    assert (Hcmp : forall o', Py.richcompare o' (Flag.value f) (Py.VInt z)
                              = inl (int_rel o' x z)).
    { intros o'. rewrite <- int_op_rel. unfold Py.richcompare.
      destruct (Flag.value f); simpl in Hnum; try discriminate;
        injection Hnum as <-; reflexivity. }
    split; [assumption|]. split; [apply Hcmp|].
    rewrite Hcmp. simpl. split.
    + intros [= H]. apply Z.eqb_eq in H. congruence.
    + intros ->. now rewrite Z.eqb_refl.
  - intros Hk y Hy. unfold Flag.FloatFlag_compare. rewrite Hy.
    split; [reflexivity|].
    destruct (float_flag_value f Hc Hk) as (x & Hx). exists x.
    split; [assumption|]. now rewrite Hx.
Qed.

Lemma compare_as_value_witness :
  Flag.IntFlag_compare Py.OpLt test_int_flag (Py.VStr "9999") = inl true.
Proof.
  destruct (compare_as_value test_int_flag (Py.VStr "9999") Py.OpLt) as [Hint _].
  - repeat split.
  - destruct (Hint eq_refl 9999%Z eq_refl) as (_ & x & Hx & Hlt & _).
    injection Hx as <-. exact Hlt.
Defined.

(** The unit tests of the repository. *)
Example test_flags :
  lookup test_state "test_int_flag" = Some test_int_flag
  /\ Flag.default test_int_flag = Py.VInt 2137
  /\ Flag.is_default test_int_flag = true
  /\ Flag.IntFlag_compare Py.OpEq test_int_flag (Py.VInt 2137) = inl true
  /\ Flag.IntFlag_compare Py.OpNe test_int_flag (Py.VInt 9999) = inl true
  /\ Flag.IntFlag_compare Py.OpGt test_int_flag (Py.VInt 0) = inl true
  /\ Flag.IntFlag_compare Py.OpLt test_int_flag (Py.VInt 9999) = inl true.
Proof. repeat split. Qed.

(** * Further properties of the module *)

(** ** Creating flags *)

Section Creation.

(** [_Flag.__init__] step by step. *)
Lemma Flag_init_eq st k name d t desc mandatory :
  _Flag_init st k name d t desc mandatory =
  if Py.isinstance d t then
    match Re.findall desc with
    | [] => _register_flag st (Flag.mk k name d desc mandatory t EmptyString d)
    | [g] =>
        _register_flag st
          (Flag.mk k name d (if Str.nonempty g then Str.remove Str.quote desc else desc)
             mandatory t g d)
    | found => Exit (AmbiguousPlaceholder desc found)
    end
  else Exit (TypeMismatch t d).
Proof.
  unfold _Flag_init, _check_against. pose proof (get_arg_name_cases desc) as H.
  destruct (Py.isinstance d t); [|reflexivity]. simpl.
  destruct (Re.findall desc) as [|g [|g' l]]; rewrite H; reflexivity.
Qed.

Lemma register_eq st flag :
  Dict.mem (Flag.name flag) (_flags_registered st) = false ->
  _register_flag st flag
  = Ok (mkState (objs st ++ [flag])
          (Dict.set (Flag.name flag) (length (objs st)) (_flags_registered st))
          (if Flag.mandatory flag
           then Dict.set (Flag.name flag) (length (objs st)) (_unsatisfied_mandatory st)
           else _unsatisfied_mandatory st)).
Proof. intros H. unfold _register_flag. now rewrite H. Qed.

Lemma register_Ok_fresh st flag st' :
  _register_flag st flag = Ok st' ->
  Dict.mem (Flag.name flag) (_flags_registered st) = false.
Proof. unfold _register_flag. destruct (Dict.mem _ _); [discriminate | reflexivity]. Qed.

Lemma mem_set k (v : nat) d : Dict.mem k (Dict.set k v d) = true.
Proof. unfold Dict.mem. now rewrite get_set_eq. Qed.

(** What a successful [_Flag.__init__] has appended to the store. *)
Lemma Flag_init_objs st k name d t desc mandatory st' :
  _Flag_init st k name d t desc mandatory = Ok st' ->
  exists flag,
    _register_flag st flag = Ok st'
    /\ objs st' = objs st ++ [flag]
    /\ _flags_registered st' = Dict.set name (length (objs st)) (_flags_registered st)
    /\ Dict.mem name (_flags_registered st) = false
    /\ Flag.reset flag = flag
    /\ Flag.cls flag = k /\ Flag.name flag = name /\ Flag.default flag = d
    /\ Flag.mandatory flag = mandatory /\ Flag.type flag = t
    /\ Str.contains Str.quote (Flag.arg_name flag) = false
    /\ (Flag.arg_name flag <> EmptyString ->
        Str.contains Str.quote (Flag.desc flag) = false).
Proof.
  rewrite Flag_init_eq. destruct (Py.isinstance d t); [|discriminate].
  pose proof (findall_clean desc) as Hclean.
  destruct (Re.findall desc) as [|g [|g' l]]; [| |discriminate]; intros H;
    eexists; (split; [exact H|]);
    pose proof (register_Ok_fresh _ _ _ H) as Hfresh; simpl in Hfresh;
    rewrite register_eq in H by exact Hfresh; injection H as <-; simpl;
    repeat split; try assumption.
  - intros Hne. now contradiction Hne.
  - now apply Forall_cons in Hclean as [Hg _].
  - intros Hne. destruct g; [now contradiction Hne|]. simpl. apply contains_remove.
Qed.

End Creation.

(** X1: the order of the checks of a constructor.  A default of the wrong
    type ends the construction with [TypeMismatch], whatever the description
    and the name; then a description with two quoted parts or more ends it
    with [AmbiguousPlaceholder], whatever the name; then a name that is
    registered ends it with [DuplicateFlag]; otherwise it succeeds. *)
Theorem construction_checks st k name d t desc mandatory :
  (Py.isinstance d t = false ->
     _Flag_init st k name d t desc mandatory = Exit (TypeMismatch t d))
  /\ (Py.isinstance d t = true -> 2 <= length (Re.findall desc) ->
     _Flag_init st k name d t desc mandatory
     = Exit (AmbiguousPlaceholder desc (Re.findall desc)))
  /\ (Py.isinstance d t = true -> length (Re.findall desc) <= 1 ->
     Dict.mem name (_flags_registered st) = true ->
     _Flag_init st k name d t desc mandatory = Exit (DuplicateFlag name))
  /\ (Py.isinstance d t = true -> length (Re.findall desc) <= 1 ->
     Dict.mem name (_flags_registered st) = false ->
     exists st', _Flag_init st k name d t desc mandatory = Ok st').
Proof.
  rewrite Flag_init_eq. repeat split.
  - now intros ->.
  - intros -> H. destruct (Re.findall desc) as [|g [|g' l]]; simpl in H; try lia.
    reflexivity.
  - intros -> H Hm.
    destruct (Re.findall desc) as [|g [|g' l]]; simpl in H; try lia;
      unfold _register_flag; simpl; now rewrite Hm.
  - intros -> H Hm.
    destruct (Re.findall desc) as [|g [|g' l]]; simpl in H; try lia;
      apply register_fresh; exact Hm.
Qed.

(** X2: a name is registered once.  After a flag of some name was created,
    the creation of a flag of the same name, of any class and with a valid
    default and description, ends with [DuplicateFlag]. *)
Theorem second_registration_refused st k name d t desc mandatory st'
    k' d' t' desc' mandatory' :
  _Flag_init st k name d t desc mandatory = Ok st' ->
  Py.isinstance d' t' = true ->
  length (Re.findall desc') <= 1 ->
  _Flag_init st' k' name d' t' desc' mandatory' = Exit (DuplicateFlag name).
Proof.
  intros H Hd Hdesc.
  apply Flag_init_objs in H as (flag & _ & _ & Hregs & _).
  assert (Hm : Dict.mem name (_flags_registered st') = true)
    by (rewrite Hregs; apply mem_set).
  rewrite Flag_init_eq, Hd.
  destruct (Re.findall desc') as [|g [|g' l]]; simpl in Hdesc; try lia;
    unfold _register_flag; simpl; now rewrite Hm.
Qed.

Lemma second_registration_refused_witness :
  IntFlag demo "target" (Py.VInt 0) "the 'PORT' to use" true = Exit (DuplicateFlag "target").
Proof.
  apply (second_registration_refused demo_verbose KStr "target" (Py.VStr EmptyString)
           Py.TStr "where to go" true demo KInt (Py.VInt 0) Py.TInt "the 'PORT' to use" true).
  - reflexivity.
  - reflexivity.
  - vm_compute. lia.
Defined.

(** X3: the creation of a flag leaves the flags that exist as they are:
    every other name is registered for the same object, which is unchanged. *)
Theorem construction_frame st k name d t desc mandatory st' n :
  wf st ->
  _Flag_init st k name d t desc mandatory = Ok st' ->
  n <> name ->
  lookup st' n = lookup st n.
Proof.
  intros Hwf H Hn.
  apply Flag_init_objs in H as (flag & _ & Hobjs & Hregs & _).
  unfold lookup. rewrite Hregs, Hobjs, get_set_ne by congruence.
  destruct (Dict.get n (_flags_registered st)) as [ref|] eqn:Hg; [|reflexivity].
  destruct (wf_refs _ Hwf _ _ Hg) as (f & Hf & _).
  apply lookup_app_l. eapply lookup_lt_Some; eassumption.
Qed.

Lemma construction_frame_witness :
  lookup demo "x" = lookup demo_verbose "x".
Proof.
  apply (construction_frame demo_verbose KStr "target" (Py.VStr EmptyString) Py.TStr
           "where to go" true demo "x").
  - apply constructed_wf, demo_constructed.
  - reflexivity.
  - discriminate.
Defined.

(** ** What holds in every state of a program *)

Section Reachable.

Lemma values_set_new {V} k (v : V) d :
  Dict.get k d = None -> Dict.values (Dict.set k v d) = Dict.values d ++ [v].
Proof.
  induction d as [|[k0 v0] d IH]; simpl; [reflexivity|].
  destruct (String.eqb k0 k); [discriminate|]. intros H. simpl. now rewrite IH.
Qed.

Lemma with_value_reset st ref f v :
  objs st !! ref = Some f ->
  Flag.reset <$> objs (with_value st ref f v) = Flag.reset <$> objs st.
Proof.
  intros Hf. simpl. rewrite list_fmap_insert. apply list_insert_id.
  rewrite list_lookup_fmap, Hf. reflexivity.
Qed.

Lemma parse_loop_reset argv : forall st p st' p',
  parse_loop st p argv = Ok (st', p') ->
  Flag.reset <$> objs st' = Flag.reset <$> objs st.
Proof.
  induction argv as [|arg argv1 IH] using argv_ind; intros st p st' p'.
  - simpl. now intros [= <- _].
  - rewrite parse_loop_cons.
    destruct (read_token arg argv1) as [[[rn v] rest]| |] eqn:Hr; try discriminate.
    cbn [bind fst snd].
    destruct (assign st arg rn v) as [[st1 name]| |] eqn:Ha; try discriminate.
    cbn [bind fst snd]. intros H.
    apply IH in H; [|eapply read_token_shorter; eassumption].
    apply assign_inv in Ha as (_ & ref & f & conv & _ & Hf & _ & _ & ->).
    rewrite H. now apply with_value_reset.
Qed.

Lemma check_mandatory_wf st p st' : wf st -> check_mandatory st p = Ok st' -> wf st'.
Proof.
  intros [Hk Hu Hr Hs Hc] H. unfold check_mandatory in H.
  destruct (fold_left _ p (_unsatisfied_mandatory st)) as [|[key ref] l].
  - injection H as <-. constructor; simpl; try assumption.
    + constructor.
    + intros n ref Hn. discriminate Hn.
  - destruct (objs st !! ref); discriminate.
Qed.

Lemma new_flag_init k st name d desc mandatory st' :
  new_flag k st name d desc mandatory = Ok st' ->
  exists d' m',
    _Flag_init st k name d' (class_type k) desc m' = Ok st'
    /\ (k = KBool -> d' = Py.VBool false /\ m' = false).
Proof.
  destruct k; simpl; intros H.
  - exists d, mandatory. split; [exact H | discriminate].
  - exists d, mandatory. split; [exact H | discriminate].
  - exists d, mandatory. split; [exact H | discriminate].
  - exists (Py.VBool false), false. split; [exact H | now split].
Qed.

Lemma built_same f f0 : Flag.reset f0 = Flag.reset f -> built f0 -> built f.
Proof.
  intros H. change (built (Flag.reset f0) -> built (Flag.reset f)). now rewrite H.
Qed.


Lemma name_reset (l : list Flag.t) : Flag.name <$> (Flag.reset <$> l) = Flag.name <$> l.
Proof. induction l as [|f l IH]; [reflexivity|]. simpl. now f_equal. Qed.

Lemma parse_static st sys_argv st' :
  parse st sys_argv = Ok st' ->
  _flags_registered st' = _flags_registered st
  /\ Flag.reset <$> objs st' = Flag.reset <$> objs st.
Proof.
  unfold parse. destruct sys_argv as [|prog argv]; [discriminate|].
  destruct (parse_loop st [] argv) as [[st1 p]| |] eqn:Hloop; try discriminate.
  cbn [bind fst snd]. intros Hcheck.
  apply check_mandatory_Ok in Hcheck as (Hobjs & Hregs & _).
  rewrite Hobjs, Hregs. split.
  - now apply parse_loop_dicts in Hloop.
  - now apply parse_loop_reset in Hloop.
Qed.

Lemma parse_wf st sys_argv st' : wf st -> parse st sys_argv = Ok st' -> wf st'.
Proof.
  intros Hwf. unfold parse. destruct sys_argv as [|prog argv]; [discriminate|].
  destruct (parse_loop st [] argv) as [[st1 p]| |] eqn:Hloop; try discriminate.
  cbn [bind fst snd]. intros Hcheck.
  eapply check_mandatory_wf; [|exact Hcheck]. eapply parse_loop_wf; eassumption.
Qed.

End Reachable.

(** X4: a successful [parse] changes two things only, the values of the
    flags and the dictionary of the mandatory flags not yet provided, which
    it leaves empty.  The names are registered as before, to the same
    objects and in the same order, and every flag has its class, name,
    default, description, mandatory mark, type and placeholder. *)
Theorem parse_changes_values_and_pending st sys_argv st' :
  parse st sys_argv = Ok st' ->
  _flags_registered st' = _flags_registered st
  /\ Flag.reset <$> objs st' = Flag.reset <$> objs st
  /\ _unsatisfied_mandatory st' = [].
Proof.
  intros H. destruct (parse_static _ _ _ H) as [Hregs Hobjs].
  split; [assumption|]. split; [assumption|].
  unfold parse in H. destruct sys_argv as [|prog argv]; [discriminate|].
  destruct (parse_loop st [] argv) as [[st1 p]| |]; try discriminate.
  cbn [bind fst snd] in H. now apply check_mandatory_Ok in H.
Qed.

Lemma parse_changes_values_and_pending_witness :
  exists st',
    parse demo ["prog"; "-x=5"; "--verbose"; "-target"; "home"] = Ok st'
    /\ _unsatisfied_mandatory demo <> []
    /\ _flags_registered st' = _flags_registered demo
    /\ Flag.reset <$> objs st' = Flag.reset <$> objs demo
    /\ _unsatisfied_mandatory st' = [].
Proof.
  eexists. split; [reflexivity|]. split; [discriminate|].
  apply (parse_changes_values_and_pending demo
           ["prog"; "-x=5"; "--verbose"; "-target"; "home"]).
  reflexivity.
Defined.

(** X5: a successful [parse] keeps the shape of the state; in particular
    every flag still holds a value of the type of its class. *)
Theorem parse_keeps_wf st sys_argv st' :
  wf st -> parse st sys_argv = Ok st' ->
  wf st' /\ forall f, f ∈ objs st' ->
            Py.isinstance (Flag.value f) (class_type (Flag.cls f)) = true.
Proof.
  intros Hwf Hparse. pose proof (parse_wf _ _ _ Hwf Hparse) as Hwf'.
  split; [assumption|]. intros f Hf.
  pose proof (wf_coherent _ Hwf') as Hc.
  rewrite Forall_forall in Hc. destruct (Hc f Hf) as (Ht & Hv & _).
  now rewrite <- Ht.
Qed.

Lemma parse_keeps_wf_witness :
  exists st',
    parse demo ["prog"; "-x=5"; "-target=home"] = Ok st'
    /\ wf st'
    /\ forall f, f ∈ objs st' ->
         Py.isinstance (Flag.value f) (class_type (Flag.cls f)) = true.
Proof.
  eexists. split; [reflexivity|].
  apply (parse_keeps_wf demo ["prog"; "-x=5"; "-target=home"]).
  - apply constructed_wf, demo_constructed.
  - reflexivity.
Defined.

(** The invariant of the states of a program. *)
Lemma reachable_inv st :
  reachable st ->
  wf st
  /\ Dict.keys (_flags_registered st) = Flag.name <$> objs st
  /\ Dict.values (_flags_registered st) = seq 0 (length (objs st))
  /\ Forall built (objs st).
Proof.
  induction 1 as [|k st name d desc m st' _ IH H|st sys_argv st' _ IH H].
  - split; [apply initial_wf|]. split; [reflexivity|]. split; [reflexivity|]. constructor.
  - destruct IH as (Hwf & Hkeys & Hvals & Hbuilt).
    apply new_flag_init in H as (d' & m' & H & Hbool).
    pose proof (Flag_init_wf _ _ _ _ _ _ _ Hwf H) as Hwf'.
    apply Flag_init_objs in H
      as (flag & _ & Hobjs & Hregs & Hfresh & _ & Hk & Hn & Hd & Hm & _ & Hq1 & Hq2).
    apply mem_false in Hfresh.
    split; [assumption|]. rewrite Hobjs, Hregs. repeat split.
    + rewrite keys_set_new, fmap_app, Hkeys by assumption. simpl. now rewrite Hn.
    + rewrite values_set_new, Hvals by assumption.
      replace (length (objs st ++ [flag])) with (S (length (objs st)))
        by (rewrite length_app; simpl; lia).
      now rewrite seq_S.
    + apply Forall_app. split; [assumption|]. apply Forall_singleton.
      split; [|split; assumption].
      intros Hb. rewrite Hk in Hb. destruct (Hbool Hb) as [-> ->]. now split.
  - destruct IH as (Hwf & Hkeys & Hvals & Hbuilt).
    pose proof (parse_wf _ _ _ Hwf H) as Hwf'.
    destruct (parse_static _ _ _ H) as [Hregs Hreset].
    split; [assumption|]. rewrite Hregs.
    assert (Hlen : length (objs st') = length (objs st)).
    { rewrite <- (length_fmap Flag.reset (objs st')), Hreset. apply length_fmap. }
    repeat split.
    + rewrite Hkeys, <- (name_reset (objs st)), <- (name_reset (objs st')).
      now rewrite Hreset.
    + now rewrite Hlen.
    + apply Forall_lookup. intros i f Hf.
      assert (Hi : (Flag.reset <$> objs st') !! i = Some (Flag.reset f))
        by (now rewrite list_lookup_fmap, Hf).
      rewrite Hreset, list_lookup_fmap in Hi.
      destruct (objs st !! i) as [f0|] eqn:E; [|discriminate].
      assert (Hi' : Flag.reset f0 = Flag.reset f)
        by (change (Some (Flag.reset f0) = Some (Flag.reset f)) in Hi; congruence).
      apply (built_same f f0 Hi').
      eapply Forall_lookup_1; eassumption.
Qed.



Lemma demo_reachable : reachable demo.
Proof.
  apply (reachable_flag KStr demo_verbose "target" (Py.VStr EmptyString) "where to go" true);
    [|reflexivity].
  apply (reachable_flag KBool demo_x "verbose" (Py.VBool false) "be verbose" false);
    [|reflexivity].
  apply (reachable_flag KInt initial "x" (Py.VInt 0) "an 'N' value" false);
    [constructor | reflexivity].
Qed.


(** Every flag is registered under its name. *)
Lemma registry_ref st i f :
  reachable st -> objs st !! i = Some f ->
  Dict.get (Flag.name f) (_flags_registered st) = Some i.
Proof.
  intros Hr Hi. destruct (reachable_inv _ Hr) as (Hwf & Hkeys & Hvals & _).
  apply elem_get; [apply (wf_reg_keys _ Hwf)|].
  apply list_elem_of_lookup. exists i.
  assert (Hki : (fst <$> _flags_registered st) !! i = Some (Flag.name f)).
  { change (fst <$> _flags_registered st) with (Dict.keys (_flags_registered st)).
    now rewrite Hkeys, list_lookup_fmap, Hi. }
  assert (Hvi : (snd <$> _flags_registered st) !! i = Some i).
  { change (snd <$> _flags_registered st) with (Dict.values (_flags_registered st)).
    rewrite Hvals. apply lookup_seq. split; [reflexivity|].
    eapply lookup_lt_Some; eassumption. }
  rewrite list_lookup_fmap in Hki. rewrite list_lookup_fmap in Hvi.
  destruct (_flags_registered st !! i) as [[k v]|]; [|discriminate].
  simpl in Hki, Hvi. congruence.
Qed.

(** X7: a boolean flag is never mandatory and its default is [False], in
    every state of a program; its value is a boolean. *)
Theorem boolean_flag_shape st n f :
  reachable st -> lookup st n = Some f -> Flag.cls f = KBool ->
  Flag.mandatory f = false
  /\ Flag.default f = Py.VBool false
  /\ (exists b, Flag.value f = Py.VBool b)
  /\ n ∉ mandatory_names st.
Proof.
  intros Hr Hl Hk. destruct (reachable_inv _ Hr) as (Hwf & _ & _ & Hbuilt).
  unfold lookup in Hl.
  destruct (Dict.get n (_flags_registered st)) as [ref|] eqn:Hg; [|discriminate].
  destruct (Forall_lookup_1 _ _ _ _ Hbuilt Hl) as (Hb & _).
  destruct (Hb Hk) as [Hm Hd].
  destruct (Forall_lookup_1 _ _ _ _ (wf_coherent _ Hwf) Hl) as (Ht & Hv & _).
  repeat split; try assumption.
  - rewrite Ht, Hk in Hv. simpl in Hv.
    destruct (Flag.value f) as [z|b|x|s]; try discriminate. eauto.
  - unfold mandatory_names. intros Hin.
    apply list_elem_of_fmap in Hin as (g & Hname & Hgin).
    apply list_elem_of_filter in Hgin as [Hgm Hgin].
    apply list_elem_of_lookup in Hgin as [i Hi].
    pose proof (registry_ref _ _ _ Hr Hi) as Hgi.
    rewrite <- Hname, Hg in Hgi. injection Hgi as ->. congruence.
Qed.

Lemma boolean_flag_shape_witness :
  "verbose" ∉ mandatory_names demo.
Proof.
  apply (boolean_flag_shape demo "verbose"
           (Flag.mk KBool "verbose" (Py.VBool false) "be verbose" false Py.TBool
              EmptyString (Py.VBool false))).
  - exact demo_reachable.
  - reflexivity.
  - reflexivity.
Defined.

(** X8: every flag that was created is found under its name, and no two
    flags share a name, in every state of a program. *)
Theorem created_flag_is_registered st f :
  reachable st -> f ∈ objs st ->
  lookup st (Flag.name f) = Some f
  /\ forall g, g ∈ objs st -> Flag.name g = Flag.name f -> g = f.
Proof.
  intros Hr Hf. apply list_elem_of_lookup in Hf as [i Hi].
  pose proof (registry_ref _ _ _ Hr Hi) as Hgi.
  split.
  - unfold lookup. now rewrite Hgi.
  - intros g Hg Hname. apply list_elem_of_lookup in Hg as [j Hj].
    pose proof (registry_ref _ _ _ Hr Hj) as Hgj.
    rewrite Hname, Hgi in Hgj. injection Hgj as ->. congruence.
Qed.

Lemma created_flag_is_registered_witness :
  exists f, f ∈ objs demo /\ Flag.name f = "target" /\ lookup demo "target" = Some f.
Proof.
  exists (Flag.mk KStr "target" (Py.VStr EmptyString) "where to go" true Py.TStr
            EmptyString (Py.VStr EmptyString)).
  assert (Hin : Flag.mk KStr "target" (Py.VStr EmptyString) "where to go" true Py.TStr
                  EmptyString (Py.VStr EmptyString) ∈ objs demo)
    by (do 2 apply list_elem_of_further; apply list_elem_of_here).
  split; [exact Hin|]. split; [reflexivity|].
  exact (proj1 (created_flag_is_registered demo _ demo_reachable Hin)).
Defined.

(** X9: a boolean flag as a condition.  In every state of a program a
    boolean flag is true exactly when it is not at its default, [==] with a
    value holds exactly when the truth of the value is that of the flag, and
    [!=] exactly when it is not. *)
Theorem boolean_flag_truth st n f o :
  reachable st -> lookup st n = Some f -> Flag.cls f = KBool ->
  Flag.__bool__ f = negb (Flag.is_default f)
  /\ Flag.BoolFlag_compare Py.OpEq f o = inl (Bool.eqb (Flag.__bool__ f) (Py.truth o))
  /\ Flag.BoolFlag_compare Py.OpNe f o
     = inl (negb (Bool.eqb (Flag.__bool__ f) (Py.truth o))).
Proof.
  intros Hr Hl Hk.
  destruct (reachable_inv _ Hr) as (Hwf & _ & _ & Hbuilt).
  unfold lookup in Hl.
  destruct (Dict.get n (_flags_registered st)) as [ref|]; [|discriminate].
  destruct (Forall_lookup_1 _ _ _ _ Hbuilt Hl) as (Hb & _).
  destruct (Hb Hk) as [_ Hd].
  destruct (Forall_lookup_1 _ _ _ _ (wf_coherent _ Hwf) Hl) as (Ht & Hv & _).
  rewrite Ht, Hk in Hv. simpl in Hv.
  unfold Flag.__bool__, Flag.is_default, Flag.BoolFlag_compare. rewrite Hd.
  destruct (Flag.value f) as [z|b|x|s]; try discriminate.
  destruct b, (Py.truth o); repeat split.
Qed.

Lemma boolean_flag_truth_witness :
  let f := Flag.mk KBool "verbose" (Py.VBool false) "be verbose" false Py.TBool
             EmptyString (Py.VBool true) in
  lookup (started (parse demo_verbose ["prog"; "--verbose"])) "verbose" = Some f
  /\ Flag.__bool__ f = true
  /\ Flag.BoolFlag_compare Py.OpEq f (Py.VStr "yes") = inl true.
Proof.
  intros f. split; [reflexivity|].
  destruct (boolean_flag_truth (started (parse demo_verbose ["prog"; "--verbose"]))
              "verbose" f (Py.VStr "yes")) as (Hb & Heq & _).
  - apply (reachable_parse demo_verbose ["prog"; "--verbose"]); [|reflexivity].
    apply (reachable_flag KBool demo_x "verbose" (Py.VBool false) "be verbose" false);
      [|reflexivity].
    apply (reachable_flag KInt initial "x" (Py.VInt 0) "an 'N' value" false);
      [constructor | reflexivity].
  - reflexivity.
  - reflexivity.
  - split; [exact Hb | exact Heq].
Defined.

(** X10: the usage text holds no quote where a placeholder was found.  In
    every state of a program the placeholder of a flag holds no quote, and
    the description of a flag with a placeholder holds none either. *)
Theorem placeholder_without_quotes st f :
  reachable st -> f ∈ objs st ->
  Str.contains Str.quote (Flag.arg_name f) = false
  /\ (Flag.arg_name f <> EmptyString -> Str.contains Str.quote (Flag.desc f) = false).
Proof.
  intros Hr Hf. destruct (reachable_inv _ Hr) as (_ & _ & _ & Hbuilt).
  rewrite Forall_forall in Hbuilt. now destruct (Hbuilt f Hf) as (_ & H1 & H2).
Qed.

Lemma placeholder_without_quotes_witness :
  Str.contains Str.quote "N" = false
  /\ ("N" <> EmptyString -> Str.contains Str.quote "an N value" = false).
Proof.
  apply (placeholder_without_quotes demo
           (Flag.mk KInt "x" (Py.VInt 0) "an N value" false Py.TInt "N" (Py.VInt 0))).
  - exact demo_reachable.
  - apply list_elem_of_here.
Defined.

(** ** The placeholder pattern, again *)

Section Pattern.

(** The search, step by step. *)
Lemma findall_cons a s :
  Re.findall (String a s) =
  if Ascii.eqb a Str.quote then
    match Re.lazy_group s with
    | Some (g, rest) => g :: Re.findall rest
    | None => Re.findall s
    end
  else Re.findall s.
Proof.
  simp findall. destruct (Ascii.eqb a Str.quote); simpl; [|reflexivity].
  destruct (Re.lazy_group s) as [[g rest]|]; reflexivity.
Qed.

Lemma contains_app c a b :
  Str.contains c (a +:+ b) = Str.contains c a || Str.contains c b.
Proof.
  induction a as [|x a IH]; simpl; [reflexivity|].
  destruct (Ascii.eqb x c); [reflexivity | exact IH].
Qed.

Lemma remove_app c a b : Str.remove c (a +:+ b) = Str.remove c a +:+ Str.remove c b.
Proof.
  induction a as [|x a IH]; simpl; [reflexivity|].
  destruct (Ascii.eqb x c); simpl; now rewrite IH.
Qed.

Lemma findall_no_quote s : Str.contains Str.quote s = false -> Re.findall s = [].
Proof.
  induction s as [|a s IH]; [reflexivity|]. cbn [Str.contains]. intros H.
  rewrite findall_cons. destruct (Ascii.eqb a Str.quote); [discriminate | auto].
Qed.

Lemma findall_skip pre s :
  Str.contains Str.quote pre = false -> Re.findall (pre +:+ s) = Re.findall s.
Proof.
  induction pre as [|a pre IH]; [reflexivity|].
  change (String a pre +:+ s) with (String a (pre +:+ s)).
  cbn [Str.contains]. intros H. rewrite findall_cons.
  destruct (Ascii.eqb a Str.quote); [discriminate | auto].
Qed.

Lemma lazy_group_app m post :
  Str.contains Str.quote m = false -> Str.contains Str.newline m = false ->
  Re.lazy_group (m +:+ String Str.quote post) = Some (m, post).
Proof.
  induction m as [|a m IH]; simpl.
  - reflexivity.
  - destruct (Ascii.eqb a Str.quote); [discriminate|].
    destruct (Ascii.eqb a Str.newline); [discriminate|].
    intros Hq Hn. now rewrite IH.
Qed.

Lemma lazy_group_spec s g rest :
  Re.lazy_group s = Some (g, rest) ->
  s = g +:+ String Str.quote rest
  /\ Str.contains Str.quote g = false /\ Str.contains Str.newline g = false.
Proof.
  revert g rest. induction s as [|a s IH]; intros g rest; simpl; [discriminate|].
  destruct (Ascii.eqb a Str.quote) eqn:Eq.
  - apply Ascii.eqb_eq in Eq. subst a. now intros [= <- <-].
  - destruct (Ascii.eqb a Str.newline) eqn:En; [discriminate|].
    destruct (Re.lazy_group s) as [[g' r']|]; [|discriminate].
    intros [= <- <-]. destruct (IH g' r' eq_refl) as (-> & Hq & Hn).
    simpl. rewrite Eq, En. auto.
Qed.

Lemma count_char_app c a b : count_char c (a +:+ b) = count_char c a + count_char c b.
Proof. induction a as [|x a IH]; simpl; [reflexivity|]. rewrite IH. lia. Qed.

Lemma count_char_absent c s : Str.contains c s = false -> count_char c s = 0.
Proof.
  induction s as [|a s IH]; simpl; [reflexivity|].
  destruct (Ascii.eqb a c); [discriminate|]. exact IH.
Qed.

Lemma length_append a b : String.length (a +:+ b) = String.length a + String.length b.
Proof. induction a as [|x a IH]; simpl; [reflexivity|]. now rewrite IH. Qed.

Lemma findall_count_bounded n : forall s,
  String.length s <= n -> 2 * length (Re.findall s) <= count_char Str.quote s.
Proof.
  induction n as [|n IH]; intros [|a s] Hlen; cbn [String.length] in Hlen;
    [apply Nat.le_0_l | lia | apply Nat.le_0_l |].
  rewrite findall_cons. cbn [count_char].
  destruct (Ascii.eqb a Str.quote).
  - destruct (Re.lazy_group s) as [[g rest]|] eqn:E.
    + apply lazy_group_spec in E as (-> & Hq & _).
      rewrite count_char_app, (count_char_absent _ _ Hq). cbn [count_char length].
      rewrite Ascii.eqb_refl. rewrite length_append in Hlen. cbn [String.length] in Hlen.
      specialize (IH rest). lia.
    + specialize (IH s). lia.
  - specialize (IH s). lia.
Qed.

End Pattern.

(** X11: each quoted part uses up two quotes of the description.  A
    description with fewer than two quotes has no placeholder, and one with
    fewer than four never is ambiguous. *)
Theorem placeholders_need_quotes desc :
  2 * length (Re.findall desc) <= count_char Str.quote desc
  /\ (count_char Str.quote desc < 2 -> _get_arg_name desc = Ok EmptyString)
  /\ (count_char Str.quote desc < 4 -> exists a, _get_arg_name desc = Ok a).
Proof.
  pose proof (findall_count_bounded _ desc (le_n _)) as H.
  pose proof (get_arg_name_cases desc) as Hcases.
  split; [exact H|].
  destruct (Re.findall desc) as [|g [|g' l]]; simpl in H; split; intros Hc;
    try lia; eauto.
Qed.

(** X12: a quoted word is found and taken out.  For a description made of a
    text without quotes, a quote, a word without quotes and line breaks, a
    quote and a text without quotes, the pattern finds just the word; a flag
    created with it has the word as placeholder and, the word not being
    empty, the description without the two quotes. *)
Theorem quoted_word_is_placeholder st k name d t mandatory pre m post :
  Str.contains Str.quote pre = false ->
  Str.contains Str.quote m = false -> Str.contains Str.newline m = false ->
  Str.contains Str.quote post = false ->
  m <> EmptyString ->
  Py.isinstance d t = true ->
  Dict.mem name (_flags_registered st) = false ->
  Re.findall (pre +:+ (String Str.quote m) +:+ (String Str.quote post)) = [m]
  /\ exists st' f,
       _Flag_init st k name d t (pre +:+ (String Str.quote m) +:+ (String Str.quote post))
         mandatory = Ok st'
       /\ lookup st' name = Some f
       /\ Flag.arg_name f = m
       /\ Flag.desc f = pre +:+ m +:+ post.
Proof.
  intros Hpre Hm Hnl Hpost Hne Hd Hfresh.
  assert (Hfind : Re.findall (pre +:+ (String Str.quote m) +:+ (String Str.quote post))
                  = [m]).
  { rewrite findall_skip by assumption.
    change (String Str.quote m +:+ String Str.quote post)
      with (String Str.quote (m +:+ String Str.quote post)).
    rewrite findall_cons, Ascii.eqb_refl.
    rewrite lazy_group_app by assumption. now rewrite findall_no_quote. }
  assert (Hrem : Str.remove Str.quote
                   (pre +:+ (String Str.quote m) +:+ (String Str.quote post))
                 = pre +:+ m +:+ post).
  { rewrite remove_app.
    change (String Str.quote m +:+ String Str.quote post)
      with (String Str.quote (m +:+ String Str.quote post)).
    cbn [Str.remove]. rewrite Ascii.eqb_refl, remove_app. cbn [Str.remove].
    rewrite Ascii.eqb_refl. now rewrite !remove_absent by assumption. }
  assert (Hnonempty : Str.nonempty m = true)
    by (destruct m; [now contradiction Hne | reflexivity]).
  split; [exact Hfind|].
  rewrite Flag_init_eq, Hd, Hfind, Hnonempty, Hrem.
  rewrite register_eq by exact Hfresh.
  eexists _, _. split; [reflexivity|]. split.
  - unfold lookup. cbn [_flags_registered objs Flag.name]. rewrite get_set_eq.
    now apply list_lookup_middle.
  - split; reflexivity.
Qed.

Lemma quoted_word_is_placeholder_witness :
  Re.findall "port to 'PORT' listen on" = ["PORT"]
  /\ exists st' f,
       _Flag_init demo KInt "port" (Py.VInt 80) Py.TInt "port to 'PORT' listen on" false
       = Ok st'
       /\ lookup st' "port" = Some f
       /\ Flag.arg_name f = "PORT"
       /\ Flag.desc f = "port to PORT listen on".
Proof.
  apply (quoted_word_is_placeholder demo KInt "port" (Py.VInt 80) Py.TInt false
           "port to " "PORT" " listen on"); try reflexivity.
  discriminate.
Defined.

(** ** The errors of [parse] *)

Section ParseErrors.

Lemma assign_unknown st arg rn v :
  Dict.get (Str.remove Str.dash rn) (_flags_registered st) = None ->
  assign st arg rn v = Exit (UnknownFlag (Str.remove Str.dash rn)).
Proof.
  intros H. unfold assign, lookup. rewrite H. reflexivity.
Qed.

Lemma startswith_two_one s : Str.startswith "--" s = true -> Str.startswith "-" s = true.
Proof.
  unfold Str.startswith. destruct s as [|a s]; cbn [String.prefix]; [auto|].
  destruct (ascii_dec "-" a); [|auto]. intros _. now destruct s.
Qed.

(** A conversion fails on text only, and in the classes [int] and [float]. *)
Lemma call_type_ValueError t v :
  call_type t v = inr Py.ValueError ->
  exists s, v = RStr s
    /\ ((t = Py.TInt /\ Py.int_of_str s = None)
        \/ (t = Py.TFloat /\ Py.float_of_str s = None)).
Proof.
  destruct t, v as [s|b]; simpl; try discriminate.
  - destruct (Py.int_of_str s) eqn:E; [discriminate|]. intros _. eauto.
  - destruct (Py.float_of_str s) eqn:E; [discriminate|]. intros _. eauto 6.
Qed.

Lemma assign_conversion st arg rn v v' k n t :
  wf st ->
  assign st arg rn v = Exit (ConversionFailure v' k n t) ->
  v' = v /\ t = class_type k /\ call_type t v = inr Py.ValueError
  /\ Dict.mem n (_flags_registered st) = true.
Proof.
  intros Hwf. unfold assign, lookup.
  destruct (Dict.get (Str.remove Str.dash rn) (_flags_registered st)) as [ref|] eqn:Hg;
    [|discriminate].
  destruct (objs st !! ref) as [f|] eqn:Hf; [|discriminate].
  destruct (is_bool_flag f && negb (Str.startswith "--" rn)); [discriminate|].
  unfold Flag.set_value.
  destruct (call_type (Flag.type f) v) as [conv|[]] eqn:Hc; try discriminate.
  simpl. intros [= <- <- <- <-].
  destruct (wf_refs _ Hwf _ _ Hg) as (f0 & Hf0 & Hname).
  assert (f0 = f) by congruence. subst f0.
  destruct (Forall_lookup_1 _ _ _ _ (wf_coherent _ Hwf) Hf) as (Ht & _).
  repeat split; try assumption.
  unfold Dict.mem. now rewrite Hname, Hg.
Qed.

Lemma parse_loop_conversion argv : forall st p v k n t,
  wf st ->
  parse_loop st p argv = Exit (ConversionFailure v k n t) ->
  t = class_type k /\ call_type t v = inr Py.ValueError
  /\ Dict.mem n (_flags_registered st) = true.
Proof.
  induction argv as [|arg argv1 IH] using argv_ind; intros st p v k n t Hwf.
  - discriminate.
  - rewrite parse_loop_cons.
    destruct (read_token arg argv1) as [[[rn v0] rest]|e|] eqn:Hr; cbn [bind fst snd].
    + destruct (assign st arg rn v0) as [[st1 name]|e|] eqn:Ha; cbn [bind fst snd].
      * intros H.
        apply IH in H; [|eapply read_token_shorter; eassumption
                        |eapply assign_wf; eassumption].
        apply assign_inv in Ha as (_ & ref & f & conv & _ & _ & _ & _ & ->).
        exact H.
      * intros [= ->]. apply assign_conversion in Ha as (-> & H); assumption.
      * discriminate.
    + unfold read_token in Hr.
      destruct (Str.contains Str.eq_sign arg).
      * destruct (Str.split Str.eq_sign arg) as [|? [|? [|? ?]]]; discriminate.
      * destruct (Str.startswith "--" arg); [discriminate|].
        destruct (Str.startswith "-" arg).
        -- destruct argv1; discriminate.
        -- injection Hr as <-. discriminate.
    + discriminate.
Qed.

End ParseErrors.

(** X13: an unknown name.  Once the tokens before it are consumed, a token
    of any of the three forms whose name, with its dashes taken out, is not
    registered ends [parse] with [UnknownFlag] for that name. *)
Theorem unknown_name_refused st prog pre r tok rest rn v rest' :
  parse_loop st [] pre = Ok r ->
  read_token tok rest = Ok (rn, v, rest') ->
  Dict.get (Str.remove Str.dash rn) (_flags_registered st) = None ->
  parse st (prog :: pre ++ tok :: rest) = Exit (UnknownFlag (Str.remove Str.dash rn)).
Proof.
  intros Hpre Hr Hg. destruct r as [st1 p1].
  unfold parse. rewrite (parse_loop_app _ _ _ _ _ _ Hpre), parse_loop_cons, Hr.
  cbn [bind fst snd].
  destruct (parse_loop_dicts _ _ _ _ _ Hpre) as [Hregs _].
  rewrite assign_unknown by (now rewrite Hregs). reflexivity.
Qed.

Lemma unknown_name_refused_witness :
  parse demo ["prog"; "-x=5"; "--color"; "-target"; "home"] = Exit (UnknownFlag "color").
Proof.
  eapply (unknown_name_refused demo "prog" ["-x=5"] _ "--color" ["-target"; "home"]
            "--color" (RBool true) ["-target"; "home"]);
    reflexivity.
Defined.

(** X14: a token that is no flag.  Once the tokens before it are consumed, a
    token without [=] that does not start with a dash, the empty token
    among them, ends [parse] with [InvalidFormat] for that token. *)
Theorem plain_token_refused st prog pre r tok rest :
  parse_loop st [] pre = Ok r ->
  Str.contains Str.eq_sign tok = false ->
  Str.startswith "-" tok = false ->
  parse st (prog :: pre ++ tok :: rest) = Exit (InvalidFormat tok).
Proof.
  intros Hpre Heq Hdash. destruct r as [st1 p1].
  unfold parse. rewrite (parse_loop_app _ _ _ _ _ _ Hpre), parse_loop_cons.
  unfold read_token. rewrite Heq, Hdash.
  destruct (Str.startswith "--" tok) eqn:E; [|reflexivity].
  apply startswith_two_one in E. congruence.
Qed.

Lemma plain_token_refused_witness :
  parse demo ["prog"; "-x"; "5"; "home"] = Exit (InvalidFormat "home").
Proof.
  eapply (plain_token_refused demo "prog" ["-x"; "5"] _ "home" []); reflexivity.
Defined.

(** X15: where a conversion can fail.  When [parse] ends with
    [ConversionFailure], the value is a text that [int] or [float] refuses
    and the flag is a registered [IntFlag] or [FloatFlag]: a text always
    suits a [StrFlag] or a [BoolFlag], and [True] suits every class. *)
Theorem conversion_fails_on_numbers_only st sys_argv v k n t :
  wf st ->
  parse st sys_argv = Exit (ConversionFailure v k n t) ->
  Dict.mem n (_flags_registered st) = true
  /\ exists s, v = RStr s
       /\ ((k = KInt /\ t = Py.TInt /\ Py.int_of_str s = None)
           \/ (k = KFloat /\ t = Py.TFloat /\ Py.float_of_str s = None)).
Proof.
  intros Hwf. unfold parse. destruct sys_argv as [|prog argv]; [discriminate|].
  destruct (parse_loop st [] argv) as [[st1 p]|e|] eqn:Hloop; cbn [bind fst snd].
  - unfold check_mandatory.
    destruct (fold_left _ p (_unsatisfied_mandatory st1)) as [|[key ref] l];
      [discriminate|].
    destruct (objs st1 !! ref); discriminate.
  - intros [= ->].
    apply parse_loop_conversion in Hloop as (Ht & Hc & Hm); [|assumption].
    split; [assumption|].
    apply call_type_ValueError in Hc as (s & -> & [[-> Hs]|[-> Hs]]);
      exists s; (split; [reflexivity|]); destruct k; try discriminate; auto.
  - discriminate.
Qed.

Lemma conversion_fails_on_numbers_only_witness :
  parse demo ["prog"; "-x=five"] = Exit (ConversionFailure (RStr "five") KInt "x" Py.TInt)
  /\ Dict.mem "x" (_flags_registered demo) = true
  /\ exists s, RStr "five" = RStr s
       /\ ((KInt = KInt /\ Py.TInt = Py.TInt /\ Py.int_of_str s = None)
           \/ (KInt = KFloat /\ Py.TInt = Py.TFloat /\ Py.float_of_str s = None)).
Proof.
  split; [reflexivity|].
  apply (conversion_fails_on_numbers_only demo ["prog"; "-x=five"]).
  - apply constructed_wf, demo_constructed.
  - reflexivity.
Defined.

(** ** The forms of a flag with a value *)

Section ValueForms.

Lemma split_app c a b :
  Str.contains c a = false -> Str.split c (a +:+ String c b) = a :: Str.split c b.
Proof.
  induction a as [|x a IH]; simpl.
  - intros _. now rewrite Ascii.eqb_refl.
  - destruct (Ascii.eqb x c); [discriminate|]. intros H. now rewrite IH.
Qed.

Lemma startswith_dash_absent n :
  Str.contains Str.dash n = false -> Str.startswith "-" n = false.
Proof.
  unfold Str.startswith. destruct n as [|a n]; cbn [String.prefix Str.contains];
    [reflexivity|].
  destruct (Ascii.eqb a Str.dash) eqn:E; [discriminate|]. intros _.
  destruct (ascii_dec "-" a) as [<-|]; [|reflexivity]. discriminate E.
Qed.

(** For a flag that is not boolean, [assign] looks at the name only. *)
Lemma assign_by_name st arg arg' rn rn' v :
  Str.remove Str.dash rn = Str.remove Str.dash rn' ->
  (forall f, lookup st (Str.remove Str.dash rn) = Some f -> is_bool_flag f = false) ->
  assign st arg rn v = assign st arg' rn' v.
Proof.
  intros Hn Hb. unfold assign. rewrite <- Hn.
  destruct (lookup st (Str.remove Str.dash rn)) as [f|] eqn:Hl; [|reflexivity].
  destruct (Dict.get (Str.remove Str.dash rn) (_flags_registered st)); [|reflexivity].
  now rewrite (Hb f eq_refl).
Qed.

Lemma read_equals_form d n v rest :
  Str.contains Str.eq_sign d = false ->
  Str.contains Str.eq_sign n = false -> Str.contains Str.eq_sign v = false ->
  read_token (d +:+ n +:+ String Str.eq_sign v) rest = Ok (d +:+ n, RStr v, rest).
Proof.
  intros Hd Hn Hv. unfold read_token.
  assert (Hdn : Str.contains Str.eq_sign (d +:+ n) = false)
    by (now rewrite contains_app, Hd, Hn).
  assert (Happ : d +:+ n +:+ String Str.eq_sign v = (d +:+ n) +:+ String Str.eq_sign v).
  { clear. induction d as [|x d IH]; [reflexivity|].
    change (String x (d +:+ n +:+ String Str.eq_sign v)
            = String x ((d +:+ n) +:+ String Str.eq_sign v)).
    now f_equal. }
  rewrite Happ, contains_app, Hdn. cbn [Str.contains orb]. rewrite Ascii.eqb_refl.
  now rewrite split_app, split_no_sep by assumption.
Qed.

Lemma fold_pop_nil {V} (p : list string) :
  fold_left (fun (d : list (string * V)) flag_name => Dict.pop flag_name d) p [] = [].
Proof. induction p as [|n p IH]; [reflexivity | exact IH]. Qed.

Lemma keys_nil {V} (d : list (string * V)) : Dict.keys d = [] -> d = [].
Proof. now destruct d. Qed.

End ValueForms.

(** X16: the three forms of a flag with a value.  For a name without dash
    and without [=], a value without [=] and a flag that is not boolean (or
    is not registered), the tokens [-name value], [-name=value] and
    [--name=value] do the same, whatever they do. *)
Theorem value_forms_agree st p n v rest :
  Str.contains Str.eq_sign n = false -> Str.contains Str.dash n = false ->
  Str.contains Str.eq_sign v = false ->
  (forall f, lookup st n = Some f -> is_bool_flag f = false) ->
  parse_loop st p (("-" +:+ n +:+ String Str.eq_sign v) :: rest)
  = parse_loop st p (("-" +:+ n) :: v :: rest)
  /\ parse_loop st p (("--" +:+ n +:+ String Str.eq_sign v) :: rest)
     = parse_loop st p (("-" +:+ n) :: v :: rest).
Proof.
  intros Hn Hd Hv Hb.
  assert (H1 : Str.remove Str.dash ("-" +:+ n) = n)
    by (change (Str.remove Str.dash n = n); now apply remove_absent).
  assert (H2 : Str.remove Str.dash ("--" +:+ n) = n)
    by (change (Str.remove Str.dash n = n); now apply remove_absent).
  assert (Hspace : read_token ("-" +:+ n) (v :: rest) = Ok ("-" +:+ n, RStr v, rest)).
  { unfold read_token.
    assert (He : Str.contains Str.eq_sign ("-" +:+ n) = false)
      by (change (Str.contains Str.eq_sign n = false); exact Hn).
    rewrite He.
    assert (Hdd : Str.startswith "--" ("-" +:+ n) = false)
      by (change (Str.startswith "-" n = false); now apply startswith_dash_absent).
    assert (Hds : Str.startswith "-" ("-" +:+ n) = true) by (now destruct n).
    rewrite Hdd, Hds. reflexivity. }
  rewrite !parse_loop_cons, Hspace.
  rewrite (read_equals_form "-" n v rest), (read_equals_form "--" n v rest)
    by (assumption || reflexivity).
  cbn [bind fst snd]. split.
  - erewrite (assign_by_name st _ ("-" +:+ n) ("-" +:+ n) ("-" +:+ n)); [reflexivity..|].
    now rewrite H1.
  - erewrite (assign_by_name st _ ("-" +:+ n) ("--" +:+ n) ("-" +:+ n));
      [reflexivity | now rewrite H1, H2 | now rewrite H2].
Qed.

Lemma value_forms_agree_witness :
  parse_loop demo [] ["-target=home"] = parse_loop demo [] ["-target"; "home"]
  /\ parse_loop demo [] ["--target=home"] = parse_loop demo [] ["-target"; "home"].
Proof.
  apply (value_forms_agree demo [] "target" "home" []); try reflexivity.
  intros f [= <-]. reflexivity.
Defined.

(** X17: the last token decides.  When the loop accepts a list, the flag
    that its last token names holds the value of that token, converted by
    the class of the flag, whatever the tokens before assigned. *)
Theorem last_token_decides st p pre st1 p1 tok rest rn v st' p' :
  parse_loop st p pre = Ok (st1, p1) ->
  read_token tok rest = Ok (rn, v, []) ->
  parse_loop st p (pre ++ tok :: rest) = Ok (st', p') ->
  exists f conv,
    lookup st1 (Str.remove Str.dash rn) = Some f
    /\ call_type (Flag.type f) v = inl conv
    /\ Flag.value <$> lookup st' (Str.remove Str.dash rn) = Some conv.
Proof.
  intros Hpre Hr. rewrite (parse_loop_app _ _ _ _ _ _ Hpre), parse_loop_cons, Hr.
  cbn [bind fst snd].
  destruct (assign st1 tok rn v) as [[st2 name]| |] eqn:Ha; try discriminate.
  cbn [bind fst snd parse_loop]. intros [= <- _].
  apply assign_inv in Ha as (-> & ref & f & conv & Hg & Hf & _ & Hc & ->).
  exists f, conv. split; [|split; [assumption|]].
  - unfold lookup. now rewrite Hg.
  - now apply with_value_lookup_same.
Qed.

Lemma last_token_decides_witness :
  exists st',
    parse_loop demo [] ["-x=1"; "--x"; "-x"; "7"] = Ok (st', ["x"; "x"; "x"])
    /\ Flag.value <$> lookup st' "x" = Some (Py.VInt 7).
Proof.
  eexists. split; [reflexivity|].
  destruct (last_token_decides demo [] ["-x=1"; "--x"] _ _ "-x" ["7"] "-x" (RStr "7") _ _
              eq_refl eq_refl eq_refl) as (f & conv & Hl & Hc & Hv).
  injection Hl as <-. injection Hc as <-. exact Hv.
Defined.

(** X18: when [parse] succeeds.  For flags created and not yet parsed, and
    a list that the loop accepts, [parse] succeeds exactly when every
    mandatory flag is named by a token; nothing is pending afterwards. *)
Theorem parse_succeeds_iff st prog argv st1 p :
  constructed st ->
  parse_loop st [] argv = Ok (st1, p) ->
  (forall n, n ∈ mandatory_names st -> n ∈ token_names argv)
  <-> parse st (prog :: argv) = Ok (mkState (objs st1) (_flags_registered st1) []).
Proof.
  intros Hc Hloop.
  pose proof (constructed_wf _ Hc) as Hwf.
  pose proof (parse_loop_provided _ _ _ _ _ Hloop) as Hp. simpl in Hp. subst p.
  destruct (parse_loop_dicts _ _ _ _ _ Hloop) as [_ Hunsat].
  pose proof (keys_fold_pop (token_names argv) (_unsatisfied_mandatory st)
                (wf_unsat_keys _ Hwf)) as Hkeys.
  rewrite (constructed_unsat _ Hc) in Hkeys.
  unfold parse. rewrite Hloop. cbn [bind fst snd]. unfold check_mandatory.
  rewrite Hunsat. split.
  - intros Hall.
    assert (Hnil : filter (fun k => k ∉ token_names argv) (mandatory_names st) = []).
    { destruct (filter _ (mandatory_names st)) as [|n l] eqn:E; [reflexivity|].
      assert (Hin : n ∈ filter (fun k => k ∉ token_names argv) (mandatory_names st))
        by (rewrite E; left).
      apply list_elem_of_filter in Hin as [Hnot Hin]. now apply Hall in Hin. }
    rewrite Hnil in Hkeys. apply keys_nil in Hkeys. now rewrite Hkeys.
  - intros H n Hn. destruct (decide (n ∈ token_names argv)) as [|Hnot]; [assumption|].
    exfalso.
    destruct (fold_left _ (token_names argv) (_unsatisfied_mandatory st))
      as [|[key ref] l].
    + simpl in Hkeys. symmetry in Hkeys.
      eapply (filter_nil_not_elem_of _ _ n Hkeys); eassumption.
    + destruct (objs st1 !! ref); discriminate.
Qed.

Lemma parse_succeeds_iff_witness :
  exists st1,
    parse_loop demo [] ["-target"; "home"] = Ok (st1, ["target"])
    /\ parse demo ["prog"; "-target"; "home"]
       = Ok (mkState (objs st1) (_flags_registered st1) []).
Proof.
  eexists. split; [reflexivity|].
  apply (proj1 (parse_succeeds_iff demo "prog" ["-target"; "home"] _ ["target"]
                  (proj2 (proj2 demo_constructed)) eq_refl)).
  intros n Hn. change (n ∈ ["target"]) in Hn. exact Hn.
Defined.

(** X19: no arguments.  For flags created and not yet parsed, [parse] on a
    command line without arguments leaves the state as it is when no flag
    is mandatory, and ends with [MissingMandatoryFlag] for the first
    mandatory flag otherwise. *)
Theorem parse_without_arguments st prog :
  constructed st ->
  parse st [prog] = match mandatory_names st with
                    | [] => Ok st
                    | n :: _ => Exit (MissingMandatoryFlag n)
                    end.
Proof.
  intros Hc. pose proof (constructed_wf _ Hc) as Hwf.
  pose proof (constructed_unsat _ Hc) as Hkeys.
  destruct (mandatory_names st) as [|n l] eqn:E.
  - apply keys_nil in Hkeys. unfold parse, check_mandatory. simpl. rewrite Hkeys.
    destruct st; simpl in *. now subst.
  - unfold parse. cbn [parse_loop bind fst snd].
    apply check_mandatory_first; [assumption|].
    rewrite Hkeys. rewrite filter_keep; [reflexivity|].
    intros x _ Hx. inversion Hx.
Qed.

Lemma parse_without_arguments_witness :
  parse demo ["prog"] = Exit (MissingMandatoryFlag "target")
  /\ parse demo_verbose ["prog"] = Ok demo_verbose.
Proof.
  split.
  - apply (parse_without_arguments demo "prog"), demo_constructed.
  - apply (parse_without_arguments demo_verbose "prog"), demo_constructed.
Defined.

(** X20: the mandatory flags are checked once.  After a successful [parse]
    nothing is pending, so that a further [parse] succeeds on every list
    that its loop accepts, whether the list names the mandatory flags or
    not. *)
Theorem second_parse_checks_nothing st sys_argv st' prog argv st2 p :
  parse st sys_argv = Ok st' ->
  parse_loop st' [] argv = Ok (st2, p) ->
  _unsatisfied_mandatory st' = []
  /\ parse st' (prog :: argv) = Ok (mkState (objs st2) (_flags_registered st2) []).
Proof.
  intros Hparse Hloop.
  assert (Hnil : _unsatisfied_mandatory st' = []).
  { unfold parse in Hparse. destruct sys_argv as [|a argv0]; [discriminate|].
    destruct (parse_loop st [] argv0) as [[s q]| |]; try discriminate.
    now apply check_mandatory_Ok in Hparse. }
  split; [assumption|].
  destruct (parse_loop_dicts _ _ _ _ _ Hloop) as [_ Hunsat].
  unfold parse. rewrite Hloop. cbn [bind fst snd]. unfold check_mandatory.
  now rewrite Hunsat, Hnil, fold_pop_nil.
Qed.

Lemma second_parse_checks_nothing_witness :
  exists st' st2,
    parse demo ["prog"; "-target=home"] = Ok st'
    /\ _unsatisfied_mandatory st' = []
    /\ parse st' ["prog"; "-x=1"] = Ok st2.
Proof.
  eexists _, _. split; [reflexivity|].
  eapply (second_parse_checks_nothing demo ["prog"; "-target=home"] _ "prog" ["-x=1"]);
    reflexivity.
Defined.

(** ** The comparisons as an order *)

Section Order.

Lemma holds_ne c : Py.holds Py.OpNe c = negb (Py.holds Py.OpEq c).
Proof. now destruct c. Qed.

Lemma richcompare_ne a b :
  Py.richcompare Py.OpNe a b
  = match Py.richcompare Py.OpEq a b with
    | inl r => inl (negb r)
    | inr x => inr x
    end.
Proof.
  destruct a as [x|x|x|x], b as [y|y|y|y];
    cbv beta iota delta [Py.richcompare Py.numeric Py.int_op Py.float_op];
    rewrite ?holds_ne; reflexivity.
Qed.

Lemma int_flag_compare f v z :
  coherent f -> Flag.cls f = KInt -> Py.to_int v = inl z ->
  exists x, forall o, Flag.IntFlag_compare o f v = inl (Py.int_op o x z).
Proof.
  intros Hc Hk Hz. destruct (int_flag_value f Hc Hk) as (x & _ & Hnum).
  exists x. intros o. unfold Flag.IntFlag_compare. rewrite Hz. unfold Py.richcompare.
  destruct (Flag.value f); simpl in Hnum; try discriminate; injection Hnum as <-;
    reflexivity.
Qed.

End Order.

(** X21: [!=] is the negation of [==], for a flag of the classes that
    define both and every value: both raise when the value does not
    convert, and give opposite answers when it does. *)
Theorem ne_negates_eq f v :
  Flag.IntFlag_compare Py.OpNe f v
  = match Flag.IntFlag_compare Py.OpEq f v with inl r => inl (negb r) | inr x => inr x end
  /\ Flag.FloatFlag_compare Py.OpNe f v
     = match Flag.FloatFlag_compare Py.OpEq f v with
       | inl r => inl (negb r)
       | inr x => inr x
       end
  /\ Flag.BoolFlag_compare Py.OpNe f v
     = match Flag.BoolFlag_compare Py.OpEq f v with
       | inl r => inl (negb r)
       | inr x => inr x
       end.
Proof.
  unfold Flag.IntFlag_compare, Flag.FloatFlag_compare, Flag.BoolFlag_compare.
  repeat split.
  - destruct (Py.to_int v); [apply richcompare_ne | reflexivity].
  - destruct (Py.to_float v); [apply richcompare_ne | reflexivity].
  - apply richcompare_ne.
Qed.

(** X22: an integer flag is ordered like the integers.  Against a value
    that [int] converts, exactly one of [<], [==] and [>] holds, [<=] is the
    negation of [>], [>=] that of [<], and no comparison raises. *)
Theorem int_flag_total_order f v z :
  coherent f -> Flag.cls f = KInt -> Py.to_int v = inl z ->
  exists lt eq gt,
    Flag.IntFlag_compare Py.OpLt f v = inl lt
    /\ Flag.IntFlag_compare Py.OpEq f v = inl eq
    /\ Flag.IntFlag_compare Py.OpGt f v = inl gt
    /\ Flag.IntFlag_compare Py.OpLe f v = inl (negb gt)
    /\ Flag.IntFlag_compare Py.OpGe f v = inl (negb lt)
    /\ ((lt = true /\ eq = false /\ gt = false)
        \/ (lt = false /\ eq = true /\ gt = false)
        \/ (lt = false /\ eq = false /\ gt = true)).
Proof.
  intros Hc Hk Hz. destruct (int_flag_compare f v z Hc Hk Hz) as (x & Hcmp).
  exists (Py.int_op Py.OpLt x z), (Py.int_op Py.OpEq x z), (Py.int_op Py.OpGt x z).
  rewrite !Hcmp. unfold Py.int_op.
  destruct (x ?= z)%Z; simpl; repeat split; auto.
Qed.

Lemma int_flag_total_order_witness :
  exists lt eq gt,
    Flag.IntFlag_compare Py.OpLt test_int_flag (Py.VFloat 2137.5) = inl lt
    /\ Flag.IntFlag_compare Py.OpEq test_int_flag (Py.VFloat 2137.5) = inl eq
    /\ Flag.IntFlag_compare Py.OpGt test_int_flag (Py.VFloat 2137.5) = inl gt
    /\ Flag.IntFlag_compare Py.OpLe test_int_flag (Py.VFloat 2137.5) = inl (negb gt)
    /\ Flag.IntFlag_compare Py.OpGe test_int_flag (Py.VFloat 2137.5) = inl (negb lt)
    /\ ((lt = true /\ eq = false /\ gt = false)
        \/ (lt = false /\ eq = true /\ gt = false)
        \/ (lt = false /\ eq = false /\ gt = true)).
Proof.
  apply (int_flag_total_order test_int_flag (Py.VFloat 2137.5) 2137%Z).
  - repeat split.
  - reflexivity.
  - reflexivity.
Defined.
